(** * The searcher service: process bootstrap, archive fetcher and archive cache

    Shallow embedding of [cmd/searcher/main.go] (functions [main],
    [shutdownOnSIGINT], [fetchTar] and the type [badRequestError]) and of the
    archive cache the program configures and starts. *)

From Stdlib Require Import ZArith String Ascii List Lia Bool.
From stdpp Require Import base option list gmap strings.

Local Open Scope string_scope.
Local Open Scope list_scope.
Local Open Scope Z_scope.

(** ** Go values shared by the whole file *)

Module Go.

(** [int64] and (on the 64-bit targets the service is built for) [int]:
    a mathematical integer reduced to the signed 64-bit range. *)
Definition min_int64 : Z := - 2 ^ 63.
Definition max_int64 : Z := 2 ^ 63 - 1.

Definition wrap64 (z : Z) : Z := (z + 2 ^ 63) mod 2 ^ 64 - 2 ^ 63.

(** Signed 64-bit multiplication, as [*] on [int64] behaves. *)
Definition mul64 (a b : Z) : Z := wrap64 (a * b).

Definition in_int64 (z : Z) : Prop := min_int64 <= z <= max_int64.

(** [strings.HasPrefix(s, prefix)]. *)
Definition HasPrefix (s pre : string) : bool := String.prefix pre s.

End Go.

(** ** The archive fetcher: [fetchTar] *)

Module Fetcher.

(** [type badRequestError struct{ msg string }] with its two methods. *)
Record badRequestError : Type := mkBadRequestError { msg : string }.

Definition badRequestError_Error (e : badRequestError) : string := msg e.
Definition badRequestError_BadRequest (e : badRequestError) : bool := true.

(** A value of the interface type [error].  [badRequestError] is the only
    error type the package declares and it is unexported, so an error value
    handed back by another package is never one of these; such values are
    kept apart as [Foreign]. *)
Inductive error (E : Type) : Type :=
| Foreign (e : E)
| OfBadRequest (e : badRequestError).
Arguments Foreign {E} e.
Arguments OfBadRequest {E} e.

(** The gitserver command built by [fetchTar]. *)
Record Cmd : Type := mkCmd {
  Args : list string;
  Repo : string;             (* cmd.Repo = &api.Repo{URI: repo} *)
  EnsureRevision : string
}.

(** Values a tracing span is tagged with. *)
Inductive tagValue (E : Type) : Type :=
| TagString (s : string)
| TagBool (b : bool)
| TagError (e : error E).
Arguments TagString {E} s.
Arguments TagBool {E} b.
Arguments TagError {E} e.

Record Span (E : Type) : Type := mkSpan {
  operationName : string;
  tags : list (string * tagValue E);
  finished : bool
}.
Arguments mkSpan {E} _ _ _.
Arguments operationName {E} _.
Arguments tags {E} _.
Arguments finished {E} _.

(** What [fetchTar] can change outside itself: the commands it has issued to
    the remote service, in order, and the spans it has reported. *)
Record World (E : Type) : Type := mkWorld {
  issued : list Cmd;
  spans : list (Span E)
}.
Arguments mkWorld {E} _ _.
Arguments issued {E} _.
Arguments spans {E} _.

Section WithTransport.

(** Error values of the other packages, with the operations [fetchTar]
    applies to them. *)
Variable E : Type.
Context `{EqDecision E}.
Variable Error_ext : E -> string.          (* err.Error() *)
Variable IsRepoNotExist : E -> bool.       (* vcs.IsRepoNotExist *)
Variable ErrRevisionNotFound : E.          (* vcs.ErrRevisionNotFound *)

(** The stream handed back on success. *)
Variable ReadCloser : Type.

(** The answer of the remote service to a command, which may depend on
    the commands issued before. *)
Variable respond : list Cmd -> Cmd -> ReadCloser + E.

(** [err.Error()] on an interface value. *)
Definition Error (e : error E) : string :=
  match e with
  | Foreign e' => Error_ext e'
  | OfBadRequest b => badRequestError_Error b
  end.

(** The type assertion [err.(badRequestError)]. *)
Definition asBadRequest (e : error E) : option badRequestError :=
  match e with
  | Foreign _ => None
  | OfBadRequest b => Some b
  end.

(** [gitserver.StdoutReader(ctx, cmd)]: one invocation of the remote
    service, recorded in the world. *)
Definition StdoutReader (cmd : Cmd) (w : World E) : (ReadCloser + E) * World E :=
  (respond (issued w) cmd, mkWorld (issued w ++ [cmd]) (spans w)).

Definition SetTag (k : string) (v : tagValue E) (s : Span E) : Span E :=
  mkSpan (operationName s) (tags s ++ [(k, v)]) (finished s).

Definition Finish (s : Span E) (w : World E) : World E :=
  mkWorld (issued w) (spans w ++ [mkSpan (operationName s) (tags s) true]).

(** Lines 117-119: the command for the archive of a commit. *)
Definition archiveCmd (repo commit : string) : Cmd :=
  mkCmd ["git"; "archive"; "--format=tar"; commit] repo commit.

(** The body of [fetchTar] between the span set-up and the deferred
    function. *)
Definition fetchTar_body (repo commit : string) (w : World E)
  : (ReadCloser + error E) * World E :=
  if Go.HasPrefix commit "-" then
    (inr (OfBadRequest (mkBadRequestError "invalid git revision spec (begins with '-')")), w)
  else
    let cmd := archiveCmd repo commit in
    let '(r, w') := StdoutReader cmd w in
    match r with
    | inr err =>
        if IsRepoNotExist err || bool_decide (err = ErrRevisionNotFound)
        then (inr (OfBadRequest (mkBadRequestError (Error_ext err))), w')
        else (inr (Foreign err), w')
    | inl r => (inl r, w')
    end.

(** [func fetchTar(ctx, repo, commit) (r io.ReadCloser, err error)]. *)
Definition fetchTar (repo commit : string) (w : World E)
  : (ReadCloser + error E) * World E :=
  let span :=
    SetTag "Commit" (TagString commit)
      (SetTag "URL" (TagString repo)
        (SetTag "component" (TagString "git")
          (mkSpan "OpenTar" [] false))) in
  let '(res, w') := fetchTar_body repo commit w in
  let span' :=
    match res with
    | inr err => SetTag "err" (TagError err) (SetTag "error" (TagBool true) span)
    | inl _ => span
    end in
  (res, Finish span' w').

(** Number of invocations of the remote service between two worlds. *)
Definition fetches (w w' : World E) : Z :=
  Z.of_nat (length (issued w')) - Z.of_nat (length (issued w)).

(** A caller invoking [fetchTar] once per (repository, commit) pair, in
    order, each call starting in the world the previous one left. *)
Fixpoint fetchEach (reqs : list (string * string)) (w : World E)
  : list (ReadCloser + error E) * World E :=
  match reqs with
  | [] => ([], w)
  | (repo, commit) :: rest =>
      let '(res, w') := fetchTar repo commit w in
      let '(ress, w'') := fetchEach rest w' in
      (res :: ress, w'')
  end.

(** The tags of a span as a caller of the tracer reads them back: the last
    value set under a key. *)
Definition tagOf (k : string) (s : Span E) : option (tagValue E) :=
  snd <$> last (filter (fun kv => kv.1 = k) (tags s)).

(** Does the commit pass the guard of [fetchTar]? *)
Definition passesGuard (req : string * string) : bool :=
  negb (Go.HasPrefix req.2 "-").

End WithTransport.

(** A transport to run [fetchTar] on: the errors of package [vcs] as far as
    [fetchTar] tells them apart, and a remote service that knows one
    repository with one commit. *)
Module Sample.

Inductive vcsError : Type :=
| RepoNotExist
| RevisionNotFound
| ConnectionRefused.

#[global] Instance vcsError_eq_dec : EqDecision vcsError.
Proof. solve_decision. Defined.

Definition Error_ext (e : vcsError) : string :=
  match e with
  | RepoNotExist => "repository does not exist"
  | RevisionNotFound => "revision not found"
  | ConnectionRefused => "connection refused"
  end.

Definition IsRepoNotExist (e : vcsError) : bool :=
  match e with RepoNotExist => true | _ => false end.

(** The remote service: repository "r" has commit "c1"; the repository
    "down" cannot be reached. *)
Definition respond (_ : list Cmd) (cmd : Cmd) : string + vcsError :=
  if String.eqb (Repo cmd) "down" then inr ConnectionRefused
  else if negb (String.eqb (Repo cmd) "r") then inr RepoNotExist
  else if negb (String.eqb (EnsureRevision cmd) "c1") then inr RevisionNotFound
  else inl "tar of r at c1".

Definition fetchTar : string -> string -> World vcsError ->
                      (string + error vcsError) * World vcsError :=
  Fetcher.fetchTar vcsError Error_ext IsRepoNotExist RevisionNotFound string respond.

Definition start : World vcsError := mkWorld [] [].

End Sample.

End Fetcher.

(** ** [strconv.ParseInt(s, 10, 64)] of the Go standard library *)

Module Strconv.

Inductive NumError : Type := ErrSyntax | ErrRange.

Definition maxUint64 : Z := 2 ^ 64 - 1.

(** Value of a decimal digit, [None] for any other byte. *)
Definition digit (c : ascii) : option Z :=
  let n := Z.of_N (N_of_ascii c) in
  if (48 <=? n) && (n <=? 57) then Some (n - 48) else None.

(** The digit loop of [ParseUint]: bytes are consumed left to right, a byte
    that is no digit is a syntax error, and a value that leaves the
    unsigned 64-bit range is a range error at the digit where it does. *)
Fixpoint parseDigits (s : string) (n : Z) : Z + NumError :=
  match s with
  | EmptyString => inl n
  | String c rest =>
      match digit c with
      | None => inr ErrSyntax
      | Some d =>
          if n * 10 + d >? maxUint64 then inr ErrRange
          else parseDigits rest (n * 10 + d)
      end
  end.

Definition ParseUint10 (s : string) : Z + NumError :=
  match s with
  | EmptyString => inr ErrSyntax
  | _ => parseDigits s 0
  end.

(** [ParseInt(s, 10, 64)]: an optional sign, then [ParseUint]; the
    magnitude must fit the signed range. *)
Definition ParseInt10_64 (s : string) : Z + NumError :=
  match s with
  | EmptyString => inr ErrSyntax
  | String c rest =>
      let neg := Ascii.eqb c "-"%char in
      let body := if Ascii.eqb c "+"%char || neg then rest else s in
      match ParseUint10 body with
      | inr e => inr e
      | inl un =>
          let cutoff := 2 ^ 63 in
          if negb neg && (un >=? cutoff) then inr ErrRange
          else if neg && (un >? cutoff) then inr ErrRange
          else inl (if neg then - un else un)
      end
  end.

End Strconv.

(** ** Process bootstrap: [main] *)

Module Bootstrap.

(** [search.Store] as [main] fills it in.  The [FetchTar] field is always
    the function [fetchTar] of this package and is left out. *)
Record Store : Type := mkStore {
  Path : string;
  MaxCacheSizeBytes : Z;
  MaxConcurrentFetchTar : Z
}.

(** [search.Service]; [RequestLog] is either nil or the stderr logger. *)
Record Service : Type := mkService {
  ServiceStore : Store;
  RequestLog : bool
}.

(** What the process reads from its surroundings when it starts. *)
Record Environment : Type := mkEnvironment {
  profBindAddr : string;        (* SRC_PROF_HTTP *)
  cacheDir : string;            (* CACHE_DIR *)
  cacheSizeMB : string;         (* SEARCHER_CACHE_SIZE_MB *)
  lvl : Z;                      (* log15.LvlFromString(env.LogLevel) *)
  lvlErr : bool;                (* ... and whether it returned an error *)
  Addrs : list string           (* gitserver.DefaultClient.Addrs *)
}.

Definition LvlInfo : Z := 3.

(** The calls [main] makes that act on the outside, in program order. *)
Inductive Event : Type :=
| EnvLock
| EnvHandleHelpFlag
| LogSetFlags (flags : Z)
| TracerInit (name : string)
| SetLogHandler (level : Z)
| GoDebugserverStart (addr : string)
| StoreStart (st : Store)
| GoShutdownOnSIGINT (addr : string)
| LogInfo (msg addr : string)
| ListenAndServe (addr : string) (svc : Service)
| LogFatalf (format : string) (arg : string) (err : Strconv.NumError)
| LogFatal (err : string).

(** How the process ends: [log.Fatal] and [log.Fatalf] exit with status 1,
    returning from [main] exits with status 0. *)
Inductive Exit : Type := ExitFatal | ExitReturn.

(** A computation that logs events and either yields a value or ends the
    process. *)
Definition Run (A : Type) : Type := list Event -> list Event * (A + Exit).

Definition ret {A} (a : A) : Run A := fun tr => (tr, inl a).

Definition bind {A B} (m : Run A) (k : A -> Run B) : Run B :=
  fun tr =>
    match m tr with
    | (tr', inl a) => k a tr'
    | (tr', inr e) => (tr', inr e)
    end.

Definition emit (e : Event) : Run unit := fun tr => (tr ++ [e], inl tt).

Definition fatal {A} (e : Event) : Run A := fun tr => (tr ++ [e], inr ExitFatal).

Definition when (b : bool) (m : Run unit) : Run unit := if b then m else ret tt.

#[global] Instance Run_ret : MRet Run := @ret.
#[global] Instance Run_bind : MBind Run := fun A B k m => bind m k.

(** What [server.ListenAndServe] eventually returns. *)
Inductive ServeError : Type := ErrServerClosed | ServeFailed (msg : string).

Section WithLibraries.

Variable filepath_Join : string -> string -> string.
Variable env : Environment.
Variable served : ServeError.

(** Lines 51-56: the cache bound. *)
Definition cacheSizeBytes : Run Z :=
  match Strconv.ParseInt10_64 (cacheSizeMB env) with
  | inr err =>
      fatal (LogFatalf "invalid int %q for SEARCHER_CACHE_SIZE_MB: %s"
                       (cacheSizeMB env) err)
  | inl i => ret (Go.mul64 (Go.mul64 i 1000) 1000)
  end.

(** Lines 58-67: the service value. *)
Definition newService (bytes : Z) : Service :=
  mkService
    (mkStore (filepath_Join (cacheDir env) "searcher-archives")
             bytes
             (Go.mul64 10 (Z.of_nat (length (Addrs env)))))
    false.

Definition withRequestLog (s : Service) : Service :=
  mkService (ServiceStore s) true.

(** [func main()]. *)
Definition main : Run unit :=
  emit EnvLock ;;
  emit EnvHandleHelpFlag ;;
  emit (LogSetFlags 0) ;;
  emit (TracerInit "searcher") ;;
  when (negb (lvlErr env)) (emit (SetLogHandler (lvl env))) ;;
  when (negb (String.eqb (profBindAddr env) ""))
       (emit (GoDebugserverStart (profBindAddr env))) ;;
  bytes ← cacheSizeBytes ;
  let service := newService bytes in
  let service := if lvl env >=? LvlInfo then withRequestLog service else service in
  emit (StoreStart (ServiceStore service)) ;;
  emit (GoShutdownOnSIGINT ":3181") ;;
  emit (LogInfo "searcher: listening" ":3181") ;;
  emit (ListenAndServe ":3181" service) ;;
  match served with
  | ErrServerClosed => ret tt
  | ServeFailed msg => fatal (LogFatal msg)
  end.

(** The whole process: the events of [main] and the way it ended. *)
Definition process : list Event * Exit :=
  match main [] with
  | (tr, inl _) => (tr, ExitReturn)
  | (tr, inr e) => (tr, e)
  end.

End WithLibraries.

(** Does the trace start the store, or start serving requests? *)
Definition startsStore (e : Event) : bool :=
  match e with StoreStart _ => true | _ => false end.
Definition servesRequests (e : Event) : bool :=
  match e with ListenAndServe _ _ => true | _ => false end.

(** The [Store] the process starts, if it gets that far. *)
Definition startedStore (tr : list Event) : option Store :=
  match filter (fun e => startsStore e = true) tr with
  | StoreStart st :: _ => Some st
  | _ => None
  end.

(** Events that neither start the store nor serve requests. *)
Definition quiet (e : Event) : Prop :=
  startsStore e = false /\ servesRequests e = false.

(** An environment to run [main] in: two gitserver addresses, log level
    info, no profiling address, and the given SEARCHER_CACHE_SIZE_MB. *)
Definition sampleJoin (a b : string) : string := (a ++ "/" ++ b)%string.
Definition sampleEnv (sizeMB : string) : Environment :=
  mkEnvironment "" "/tmp" sizeMB LvlInfo false
                ["gitserver-0:3178"; "gitserver-1:3178"].
Definition sampleProcess (sizeMB : string) : list Event * Exit :=
  process sampleJoin (sampleEnv sizeMB) ErrServerClosed.

(** Unfolds [main] down to its events. *)
Ltac run_main :=
  unfold process, main, mbind, Run_bind, bind, cacheSizeBytes, when, emit,
         fatal, mret, Run_ret, ret.

End Bootstrap.

(** ** Process lifecycle: [main] and [shutdownOnSIGINT] side by side

    [main] starts [shutdownOnSIGINT] as a goroutine and blocks in
    [server.ListenAndServe]; the two run concurrently, one atomic step at a
    time.  [http.Server] behaves as its documentation says: once [Shutdown]
    is called the listener is closed and [ListenAndServe] returns
    [ErrServerClosed] immediately, while [Shutdown] itself waits until the
    connections are idle or its context expires.  A Go program ends when
    [main] returns; it does not wait for other goroutines. *)

Module Lifecycle.

(** [time.Second], in nanoseconds as [time.Duration] counts. *)
Definition Second : Z := 1000000000.

(** The timeout of [context.WithTimeout(context.Background(), 10*time.Second)]. *)
Definition gracePeriod : Z := Go.mul64 10 Second.

(** The main goroutine, once it has reached [server.ListenAndServe()]. *)
Inductive MainGoroutine : Type :=
| Serving          (* blocked inside ListenAndServe *)
| MainDone.        (* main has returned or called log.Fatal *)

(** The goroutine started by [go shutdownOnSIGINT(server)]. *)
Inductive SignalGoroutine : Type :=
| AwaitSignal                     (* blocked at <-c *)
| InShutdown (deadline : Z)       (* inside s.Shutdown(ctx) *)
| SignalDone.                     (* Shutdown returned nil *)

Record Process : Type := mkProcess {
  now : Z;                         (* clock, nanoseconds *)
  listening : bool;                (* the listener accepts connections *)
  active : list Z;                 (* in-flight requests: time each still needs *)
  mainG : MainGoroutine;
  sigG : SignalGoroutine;
  exited : option Bootstrap.Exit;  (* set once the process has terminated *)
  abandoned : list Z               (* requests cut off by the termination *)
}.

(** What can happen next; the scheduler and the surroundings choose. *)
Inductive Action : Type :=
| Accept (need : Z)     (* a new request arrives and is accepted *)
| Elapse (d : Z)        (* time passes, requests make progress *)
| Interrupt             (* os.Interrupt is delivered on channel c *)
| RunMain               (* the main goroutine gets to run *)
| RunShutdown.          (* the signal goroutine gets to run *)

(** Requests that still need time after [d] has passed. *)
Definition progress (d : Z) (reqs : list Z) : list Z :=
  filter (fun r => 0 < r) (map (fun r => r - d) reqs).

Definition terminate (e : Bootstrap.Exit) (p : Process) : Process :=
  mkProcess (now p) false (active p) MainDone (sigG p) (Some e) (active p).

(** One atomic step; [None] when the action is not enabled. *)
Definition step (a : Action) (p : Process) : option Process :=
  match exited p with
  | Some _ => None
  | None =>
      match a with
      | Accept need =>
          if listening p && (0 <? need)
          then Some (mkProcess (now p) (listening p) (active p ++ [need])
                               (mainG p) (sigG p) None (abandoned p))
          else None
      | Elapse d =>
          if 0 <? d
          then Some (mkProcess (now p + d) (listening p) (progress d (active p))
                               (mainG p) (sigG p) None (abandoned p))
          else None
      | Interrupt =>
          (* <-c returns; ctx gets its deadline; s.Shutdown(ctx) closes the
             listener and starts waiting for the connections *)
          match sigG p with
          | AwaitSignal =>
              Some (mkProcess (now p) false (active p) (mainG p)
                              (InShutdown (now p + gracePeriod)) None (abandoned p))
          | _ => None
          end
      | RunMain =>
          (* ListenAndServe returns http.ErrServerClosed as soon as Shutdown
             was called; main skips log.Fatal and returns, which ends the
             program without waiting for other goroutines *)
          match mainG p, sigG p with
          | Serving, InShutdown _
          | Serving, SignalDone => Some (terminate Bootstrap.ExitReturn p)
          | _, _ => None
          end
      | RunShutdown =>
          match sigG p with
          | InShutdown deadline =>
              match active p with
              | [] =>
                  (* err == nil: shutdownOnSIGINT returns *)
                  Some (mkProcess (now p) false [] (mainG p) SignalDone None (abandoned p))
              | _ :: _ =>
                  (* ctx expired first: err != nil, log.Fatal *)
                  if deadline <=? now p
                  then Some (terminate Bootstrap.ExitFatal p)
                  else None
              end
          | _ => None
          end
      end
  end.

Fixpoint run (acts : list Action) (p : Process) : option Process :=
  match acts with
  | [] => Some p
  | a :: rest =>
      match step a p with
      | Some p' => run rest p'
      | None => None
      end
  end.

(** The server once [main] blocks in [ListenAndServe], with the given
    requests in flight. *)
Definition serving (reqs : list Z) : Process :=
  mkProcess 0 true reqs Serving AwaitSignal None [].

End Lifecycle.

(** ** The archive cache behind [search.Store] *)

Module Cache.

(** Modelled from the spec: the ArchiveKey of [search.Store], whose source
    is not part of [cmd/searcher/main.go]: the pair (repository identifier,
    commit identifier). *)
Definition ArchiveKey : Type := string * string.

(** Modelled from the spec: one acquisition of the missing [search.Store],
    named by the request that issues it. *)
Definition Caller : Type := nat.

(** Modelled from the spec: the CacheEntry of the missing [search.Store].
    The key is the map key and the on-disk location is derived from it, so
    the record keeps the size, the last access and the reference count. *)
Record CacheEntry : Type := mkEntry {
  size : Z;
  lastAccess : nat;
  refCount : nat
}.

(** Modelled from the spec: what a requester of the missing [search.Store]
    observes, the view of the archive of a key or the error of the fetch. *)
Inductive Outcome : Type :=
| View (k : ArchiveKey)
| Failed (err : string).

(** Modelled from the spec: the shared state of the missing [search.Store]
    (key to entry map, in-flight coordinator map with the waiters of each
    fetch, total-size counter), the extracted directories on disk, a clock
    for access times, and the history of fetches started and of outcomes
    delivered. *)
Record State : Type := mkState {
  index : gmap ArchiveKey CacheEntry;
  coordinators : gmap ArchiveKey (list Caller);
  totalSize : Z;
  disk : gset ArchiveKey;
  clock : nat;
  fetchLog : list ArchiveKey;
  outcomes : gmap Caller Outcome
}.

(** Modelled from the spec: the empty cache of the missing [search.Store]. *)
Definition empty : State := mkState ∅ ∅ 0 ∅ 0%nat [] ∅.

(** Modelled from the spec: resolving the waiters of a coordinator of the
    missing [search.Store], all with one outcome. *)
Definition resolveAll (ws : list Caller) (o : Outcome)
    (m : gmap Caller Outcome) : gmap Caller Outcome :=
  foldr (fun c acc => <[c := o]> acc) m ws.

(** Modelled from the spec: acquire of the missing [search.Store].  A hit
    returns a new reference at once; a miss registers a coordinator and
    starts the fetch if none exists, and joins the waiters otherwise. *)
Definition acquire (c : Caller) (k : ArchiveKey) (s : State) : State :=
  match index s !! k with
  | Some e =>
      mkState (<[k := mkEntry (size e) (clock s) (S (refCount e))]> (index s))
              (coordinators s) (totalSize s) (disk s) (S (clock s))
              (fetchLog s) (<[c := View k]> (outcomes s))
  | None =>
      match coordinators s !! k with
      | Some ws =>
          mkState (index s) (<[k := ws ++ [c]]> (coordinators s)) (totalSize s)
                  (disk s) (clock s) (fetchLog s) (outcomes s)
      | None =>
          mkState (index s) (<[k := [c]]> (coordinators s)) (totalSize s)
                  (disk s) (clock s) (fetchLog s ++ [k]) (outcomes s)
      end
  end.

(** Modelled from the spec: release of the missing [search.Store]: the
    reference count goes down by one, the entry stays. *)
Definition release (k : ArchiveKey) (s : State) : State :=
  match index s !! k with
  | Some e =>
      match refCount e with
      | O => s
      | S n =>
          mkState (<[k := mkEntry (size e) (lastAccess e) n]> (index s))
                  (coordinators s) (totalSize s) (disk s) (clock s)
                  (fetchLog s) (outcomes s)
      end
  | None => s
  end.

(** Modelled from the spec: the older of two eviction candidates of the
    missing [search.Store]. *)
Definition older (a b : ArchiveKey * CacheEntry) : ArchiveKey * CacheEntry :=
  if (lastAccess a.2 <=? lastAccess b.2)%nat then a else b.

(** Modelled from the spec: victim selection of the missing [search.Store],
    the least recently accessed entry among those with reference count
    zero. *)
Definition selectVictim (idx : gmap ArchiveKey CacheEntry)
    : option (ArchiveKey * CacheEntry) :=
  foldr (fun x acc => match acc with
                      | None => Some x
                      | Some y => Some (older x y)
                      end)
        None
        (filter (fun x => refCount x.2 = O) (map_to_list idx)).

(** Modelled from the spec: removal of one victim by the missing
    [search.Store]: disk data, index entry and its share of the counter. *)
Definition remove (k : ArchiveKey) (e : CacheEntry) (s : State) : State :=
  mkState (delete k (index s)) (coordinators s) (totalSize s - size e)
          (disk s ∖ {[k]}) (clock s) (fetchLog s) (outcomes s).

(** Modelled from the spec: the eviction pass of the missing
    [search.Store]: while the counter exceeds the maximum (0 means
    unbounded), remove a victim, until under the bound or no victim
    remains.  The fuel is the number of entries that could be removed. *)
Fixpoint evictLoop (fuel : nat) (max : Z) (s : State) : State :=
  match fuel with
  | O => s
  | S fuel' =>
      if (max =? 0) || (totalSize s <=? max) then s
      else match selectVictim (index s) with
           | None => s
           | Some (k, e) => evictLoop fuel' max (remove k e s)
           end
  end.

(** Modelled from the spec: one eviction pass of the missing
    [search.Store]. *)
Definition evict (max : Z) (s : State) : State :=
  evictLoop (base.size (index s)) max s.

(** Modelled from the spec: the end of a fetch in the missing
    [search.Store].  Success inserts the entry, updates the counter,
    resolves all waiters with the view, removes the coordinator and runs the
    eviction pass; failure resolves all waiters with the error and removes
    the coordinator, nothing else. *)
Definition resolve (max : Z) (k : ArchiveKey) (r : Z + string) (s : State) : State :=
  match coordinators s !! k with
  | None => s
  | Some ws =>
      match r with
      | inl bytes =>
          evict max
            (mkState (<[k := mkEntry bytes (clock s) (length ws)]> (index s))
                     (delete k (coordinators s)) (totalSize s + bytes)
                     (disk s ∪ {[k]}) (S (clock s)) (fetchLog s)
                     (resolveAll ws (View k) (outcomes s)))
      | inr err =>
          mkState (index s) (delete k (coordinators s)) (totalSize s)
                  (disk s) (clock s) (fetchLog s)
                  (resolveAll ws (Failed err) (outcomes s))
      end
  end.

(** Modelled from the spec: the operations on the missing [search.Store]
    that run one at a time under its exclusion. *)
Inductive Op : Type :=
| Acquire (c : Caller) (k : ArchiveKey)
| Resolve (k : ArchiveKey) (r : Z + string)
| Release (k : ArchiveKey)
| Evict.

(** Modelled from the spec: one operation on the missing [search.Store]. *)
Definition step (max : Z) (op : Op) (s : State) : State :=
  match op with
  | Acquire c k => acquire c k s
  | Resolve k r => resolve max k r s
  | Release k => release k s
  | Evict => evict max s
  end.

(** Modelled from the spec: an interleaving of operations on the missing
    [search.Store], in the order in which they take the exclusion. *)
Definition run (max : Z) (ops : list Op) (s : State) : State :=
  fold_left (fun s op => step max op s) ops s.

(** Modelled from the spec: the outcome all waiters of a fetch of the
    missing [search.Store] are resolved with. *)
Definition outcomeOf (k : ArchiveKey) (r : Z + string) : Outcome :=
  match r with
  | inl _ => View k
  | inr err => Failed err
  end.

(** Modelled from the spec: the callers acquiring [k] in an interleaving on
    the missing [search.Store], in order. *)
Fixpoint acquirers (k : ArchiveKey) (ops : list Op) : list Caller :=
  match ops with
  | [] => []
  | Acquire c k' :: rest =>
      if bool_decide (k' = k) then c :: acquirers k rest else acquirers k rest
  | _ :: rest => acquirers k rest
  end.

(** Modelled from the spec: does the operation end the fetch of [k] in the
    missing [search.Store]? *)
Definition resolves (k : ArchiveKey) (op : Op) : bool :=
  match op with
  | Resolve k' _ => bool_decide (k' = k)
  | _ => false
  end.

(** Modelled from the spec: number of fetches started for [k] by the
    missing [search.Store]. *)
Definition fetchCount (k : ArchiveKey) (s : State) : nat :=
  length (filter (fun k' => k' = k) (fetchLog s)).

(** Modelled from the spec: the entries of the missing [search.Store] that
    are held by some search. *)
Definition pinned (s : State) (k : ArchiveKey) : Prop :=
  exists e, index s !! k = Some e /\ (0 < refCount e)%nat.

(** Modelled from the spec: the invariants of the shared state of the missing
    [search.Store] that relate its parts: a directory on disk for exactly the
    keys of the index, and no index entry for a key whose fetch is in
    flight. *)
Definition consistent (s : State) : Prop :=
  (forall k, k ∈ disk s <-> is_Some (index s !! k))
  /\ (forall k, is_Some (coordinators s !! k) -> index s !! k = None).

(** Modelled from the spec: three keys and two interleavings on the missing
    [search.Store] to run its operations on.  After [busy] two archives of
    100 bytes are cached, the first held by a search, the second released;
    after [fetching] two callers wait for the fetch of the third key. *)
Definition k1 : ArchiveKey := ("r", "c1").

(** Modelled from the spec: a second key of the missing [search.Store]. *)
Definition k2 : ArchiveKey := ("r", "c2").


(** Modelled from the spec: three callers acquiring the first key of the
    missing [search.Store] while another caller acquires the second. *)
Definition burst : list Op :=
  [Acquire 1%nat k1; Acquire 2%nat k2; Acquire 3%nat k1; Acquire 4%nat k1].

(** Modelled from the spec: operations on the missing [search.Store] that
    cache two archives, one held and one released. *)
Definition busy : list Op :=
  [Acquire 1%nat k1; Resolve k1 (inl 100); Acquire 2%nat k2; Resolve k2 (inl 100);
   Release k2].


End Cache.

(** * Properties *)

(** ** The archive fetcher *)

Module FetcherSpec.
Import Fetcher.

Section WithTransport.

Context {E : Type} `{EqDecision E}.
Variable Error_ext : E -> string.
Variable IsRepoNotExist : E -> bool.
Variable ErrRevisionNotFound : E.
Variable ReadCloser : Type.
Variable respond : list Cmd -> Cmd -> ReadCloser + E.

Local Abbreviation fetchTar :=
  (Fetcher.fetchTar E Error_ext IsRepoNotExist ErrRevisionNotFound ReadCloser respond).
Local Abbreviation fetchTar_body :=
  (Fetcher.fetchTar_body E Error_ext IsRepoNotExist ErrRevisionNotFound ReadCloser
                         respond).

(** The deferred function only reports the span: result and issued
    commands are those of the body. *)
Lemma fetchTar_result repo commit w :
  (fetchTar repo commit w).1 = (fetchTar_body repo commit w).1.
Proof.
  unfold Fetcher.fetchTar.
  destruct (fetchTar_body repo commit w) as [res w'].
  reflexivity.
Qed.

Lemma fetchTar_issued repo commit w :
  issued (fetchTar repo commit w).2 = issued (fetchTar_body repo commit w).2.
Proof.
  unfold Fetcher.fetchTar.
  destruct (fetchTar_body repo commit w) as [res w'].
  reflexivity.
Qed.

(** Past the guard, the body issues exactly the archive command. *)
Lemma fetchTar_body_issues repo commit w :
  Go.HasPrefix commit "-" = false ->
  issued (fetchTar_body repo commit w).2 = issued w ++ [archiveCmd repo commit].
Proof.
  intros Hguard. unfold Fetcher.fetchTar_body.
  rewrite Hguard. cbn [StdoutReader].
  destruct (respond (issued w) _) as [r | err]; [reflexivity |].
  destruct (IsRepoNotExist err || bool_decide (err = ErrRevisionNotFound));
    reflexivity.
Qed.

(** C1. A commit identifier that begins with '-' is rejected, for every
    repository: [fetchTar] returns a [badRequestError] (whose
    [BadRequest] method answers true) and the remote service is not
    invoked, the list of issued commands being what it was. *)
Theorem fetchTar_flag_like_commit_rejected repo commit w :
  Go.HasPrefix commit "-" = true ->
  exists b : badRequestError,
    (fetchTar repo commit w).1 = inr (OfBadRequest b)
    /\ badRequestError_BadRequest b = true
    /\ issued (fetchTar repo commit w).2 = issued w
    /\ fetches E w (fetchTar repo commit w).2 = 0.
Proof.
  intros Hflag.
  exists (mkBadRequestError "invalid git revision spec (begins with '-')").
  assert (Hbody : fetchTar_body repo commit w
                  = (inr (OfBadRequest (mkBadRequestError
                       "invalid git revision spec (begins with '-')")), w)).
  { unfold Fetcher.fetchTar_body. now rewrite Hflag. }
  assert (Hiss : issued (fetchTar repo commit w).2 = issued w).
  { rewrite fetchTar_issued, Hbody. reflexivity. }
  repeat split.
  - rewrite fetchTar_result, Hbody. reflexivity.
  - exact Hiss.
  - unfold fetches. rewrite Hiss. lia.
Qed.

(** C2. When the remote service answers the fetch with an error that is a
    repository-does-not-exist error, or is the revision-not-found error,
    [fetchTar] returns a [badRequestError] carrying the message of that
    error: a client-caused error, its [BadRequest] method answers true. *)
Theorem fetchTar_not_found_is_client_error repo commit w err :
  Go.HasPrefix commit "-" = false ->
  respond (issued w) (archiveCmd repo commit) = inr err ->
  IsRepoNotExist err = true \/ err = ErrRevisionNotFound ->
  exists b : badRequestError,
    (fetchTar repo commit w).1 = inr (OfBadRequest b)
    /\ badRequestError_BadRequest b = true
    /\ badRequestError_Error b = Error_ext err.
Proof.
  intros Hguard Hresp Hkind.
  exists (mkBadRequestError (Error_ext err)).
  repeat split.
  rewrite fetchTar_result.
  unfold Fetcher.fetchTar_body.
  rewrite Hguard. cbn [StdoutReader].
  rewrite Hresp.
  assert (Hcond : IsRepoNotExist err || bool_decide (err = ErrRevisionNotFound) = true).
  { destruct Hkind as [Hrepo | Hrev].
    - rewrite Hrepo. reflexivity.
    - apply orb_true_iff. right. now apply bool_decide_eq_true. }
  rewrite Hcond. reflexivity.
Qed.

(** C3. When the remote service answers the fetch with any other error,
    [fetchTar] returns that very error value: it is not turned into a
    [badRequestError]. *)
Theorem fetchTar_other_failure_unchanged repo commit w err :
  Go.HasPrefix commit "-" = false ->
  respond (issued w) (archiveCmd repo commit) = inr err ->
  IsRepoNotExist err = false ->
  err <> ErrRevisionNotFound ->
  (fetchTar repo commit w).1 = inr (Foreign err)
  /\ asBadRequest E (Foreign err) = None.
Proof.
  intros Hguard Hresp Hrepo Hrev.
  split; [| reflexivity].
  rewrite fetchTar_result.
  unfold Fetcher.fetchTar_body.
  rewrite Hguard. cbn [StdoutReader].
  rewrite Hresp, Hrepo.
  rewrite (bool_decide_eq_false_2 _ Hrev). reflexivity.
Qed.

End WithTransport.

(** [fetchTar] on the sample transport: a flag-like commit. *)
Lemma fetchTar_flag_like_commit_rejected_witness :
  Go.HasPrefix "--upload-pack=x" "-" = true
  /\ exists b : badRequestError,
       (Sample.fetchTar "r" "--upload-pack=x" Sample.start).1 = inr (OfBadRequest b)
       /\ badRequestError_BadRequest b = true
       /\ issued (Sample.fetchTar "r" "--upload-pack=x" Sample.start).2 = []
       /\ fetches Sample.vcsError Sample.start
            (Sample.fetchTar "r" "--upload-pack=x" Sample.start).2 = 0.
Proof.
  split; [reflexivity |].
  apply (fetchTar_flag_like_commit_rejected Sample.Error_ext Sample.IsRepoNotExist
           Sample.RevisionNotFound string Sample.respond "r" "--upload-pack=x"
           Sample.start).
  reflexivity.
Defined.

(** [fetchTar] on the sample transport: an unknown commit. *)
Lemma fetchTar_not_found_is_client_error_witness :
  exists b : badRequestError,
    (Sample.fetchTar "r" "c2" Sample.start).1 = inr (OfBadRequest b)
    /\ badRequestError_BadRequest b = true
    /\ badRequestError_Error b = "revision not found".
Proof.
  apply (fetchTar_not_found_is_client_error Sample.Error_ext Sample.IsRepoNotExist
           Sample.RevisionNotFound string Sample.respond "r" "c2" Sample.start
           Sample.RevisionNotFound).
  - reflexivity.
  - reflexivity.
  - right. reflexivity.
Defined.

(** [fetchTar] on the sample transport: the service cannot be reached. *)
Lemma fetchTar_other_failure_unchanged_witness :
  (Sample.fetchTar "down" "c1" Sample.start).1 = inr (Foreign Sample.ConnectionRefused)
  /\ asBadRequest Sample.vcsError (Foreign Sample.ConnectionRefused) = None.
Proof.
  apply (fetchTar_other_failure_unchanged Sample.Error_ext Sample.IsRepoNotExist
           Sample.RevisionNotFound string Sample.respond "down" "c1" Sample.start
           Sample.ConnectionRefused).
  - reflexivity.
  - reflexivity.
  - reflexivity.
  - discriminate.
Defined.

End FetcherSpec.

(** ** Signed 64-bit arithmetic *)

Module GoSpec.
Import Go.

Lemma wrap64_in_range z : in_int64 z -> wrap64 z = z.
Proof.
  unfold in_int64, min_int64, max_int64, wrap64. intros Hz.
  rewrite Z.mod_small; lia.
Qed.

Lemma mul64_exact a b : in_int64 (a * b) -> mul64 a b = a * b.
Proof. apply wrap64_in_range. Qed.

(** Two multiplications by 1000 are one by 1,000,000 whenever the product
    fits. *)
Lemma mul64_thousand_twice i :
  in_int64 (i * 1000000) -> mul64 (mul64 i 1000) 1000 = i * 1000000.
Proof.
  unfold in_int64, min_int64, max_int64. intros Hi.
  rewrite (mul64_exact i 1000) by (unfold in_int64, min_int64, max_int64; lia).
  rewrite mul64_exact by (unfold in_int64, min_int64, max_int64; lia).
  lia.
Qed.

End GoSpec.

(** ** [strconv.ParseInt]: examples *)

Module StrconvSpec.
Import Strconv.

Example parse_zero : ParseInt10_64 "0" = inl 0.
Proof. reflexivity. Qed.

Example parse_signs :
  ParseInt10_64 "+5" = inl 5 /\ ParseInt10_64 "-12" = inl (-12).
Proof. split; reflexivity. Qed.

Example parse_extremes :
  ParseInt10_64 "9223372036854775807" = inl Go.max_int64
  /\ ParseInt10_64 "-9223372036854775808" = inl Go.min_int64
  /\ ParseInt10_64 "9223372036854775808" = inr ErrRange
  /\ ParseInt10_64 "-9223372036854775809" = inr ErrRange.
Proof. repeat split; reflexivity. Qed.

Example parse_syntax_errors :
  ParseInt10_64 "" = inr ErrSyntax
  /\ ParseInt10_64 "-" = inr ErrSyntax
  /\ ParseInt10_64 "12a" = inr ErrSyntax
  /\ ParseInt10_64 " 5" = inr ErrSyntax
  /\ ParseInt10_64 "0x10" = inr ErrSyntax
  /\ ParseInt10_64 "1_000" = inr ErrSyntax.
Proof. repeat split; reflexivity. Qed.

Lemma digit_range c d : digit c = Some d -> 0 <= d <= 9.
Proof.
  unfold digit. intros H.
  destruct ((48 <=? Z.of_N (N_of_ascii c)) && (Z.of_N (N_of_ascii c) <=? 57)) eqn:Hc;
    [| discriminate].
  apply andb_true_iff in Hc. injection H as <-. lia.
Qed.

(** The digit loop stays within the unsigned 64-bit range. *)
Lemma parseDigits_bounds s n v :
  0 <= n <= maxUint64 -> parseDigits s n = inl v -> 0 <= v <= maxUint64.
Proof.
  revert n. induction s as [| c rest IH]; intros n Hn H; cbn in H.
  - now injection H as <-.
  - destruct (digit c) as [d |] eqn:Hd; [| discriminate].
    pose proof (digit_range _ _ Hd) as Hdr.
    destruct (n * 10 + d >? maxUint64) eqn:Hov; [discriminate |].
    apply (IH (n * 10 + d)); [lia | exact H].
Qed.

(** What [ParseInt] accepts lies in the signed 64-bit range. *)
Lemma ParseInt10_64_in_range s i : ParseInt10_64 s = inl i -> Go.in_int64 i.
Proof.
  unfold ParseInt10_64. destruct s as [| c rest]; [discriminate |].
  set (neg := Ascii.eqb c "-"%char).
  set (body := if Ascii.eqb c "+"%char || neg then rest else String c rest).
  destruct (ParseUint10 body) as [un | e] eqn:Hun; [| discriminate].
  assert (Hb : 0 <= un <= maxUint64).
  { unfold ParseUint10 in Hun. destruct body; [discriminate |].
    eapply parseDigits_bounds; [| exact Hun]. unfold maxUint64. lia. }
  unfold Go.in_int64, Go.min_int64, Go.max_int64.
  destruct neg; cbn [negb andb].
  - destruct (un >? 2 ^ 63) eqn:Hc; [discriminate |].
    intros H. injection H as <-. lia.
  - destruct (un >=? 2 ^ 63) eqn:Hc; [discriminate |].
    intros H. injection H as <-. lia.
Qed.

End StrconvSpec.

(** ** Process bootstrap *)

Module BootstrapSpec.
Import Bootstrap.

Section WithLibraries.

Variable filepath_Join : string -> string -> string.
Variable env : Environment.
Variable served : ServeError.

Local Abbreviation process := (Bootstrap.process filepath_Join env served).

(** The store [main] builds from a parsed size. *)
Local Abbreviation storeFor i :=
  (ServiceStore (newService filepath_Join env (Go.mul64 (Go.mul64 i 1000) 1000))).

(** When the setting does not parse, the process logs the fatal message
    after quiet events only. *)
Lemma process_parse_error err :
  Strconv.ParseInt10_64 (cacheSizeMB env) = inr err ->
  exists pre,
    process = (pre ++ [LogFatalf "invalid int %q for SEARCHER_CACHE_SIZE_MB: %s"
                                 (cacheSizeMB env) err], ExitFatal)
    /\ Forall quiet pre.
Proof.
  intros Hparse.
  exists ([EnvLock; EnvHandleHelpFlag; LogSetFlags 0; TracerInit "searcher"]
          ++ (if lvlErr env then [] else [SetLogHandler (lvl env)])
          ++ (if String.eqb (profBindAddr env) "" then []
              else [GoDebugserverStart (profBindAddr env)])).
  run_main. rewrite Hparse.
  destruct (lvlErr env), (String.eqb (profBindAddr env) "");
    (split; [reflexivity | repeat constructor]).
Qed.

(** When the setting parses, the store built from it is the one that is
    started. *)
Lemma process_parse_ok i :
  Strconv.ParseInt10_64 (cacheSizeMB env) = inl i ->
  startedStore process.1 = Some (storeFor i).
Proof.
  intros Hparse. run_main. rewrite Hparse.
  destruct (lvlErr env), (String.eqb (profBindAddr env) ""),
           (lvl env >=? LvlInfo), served; reflexivity.
Qed.

(** C7 (amended). When SEARCHER_CACHE_SIZE_MB parses to an integer of
    magnitude at most 9223372036854, the store is started with a maximum
    cache size of exactly that integer times 1,000,000 bytes; for the
    value 0 the bound is 0 bytes, and an eviction pass under the bound 0
    removes nothing. *)
Theorem cache_bound_is_megabytes i :
  Strconv.ParseInt10_64 (cacheSizeMB env) = inl i ->
  -9223372036854 <= i <= 9223372036854 ->
  exists st,
    startedStore process.1 = Some st
    /\ MaxCacheSizeBytes st = i * 1000000
    /\ (i = 0 ->
        MaxCacheSizeBytes st = 0
        /\ forall s, Cache.evict (MaxCacheSizeBytes st) s = s).
Proof.
  intros Hparse Hrange. exists (storeFor i).
  assert (Hbytes : MaxCacheSizeBytes (storeFor i) = i * 1000000).
  { cbn [MaxCacheSizeBytes ServiceStore newService].
    apply GoSpec.mul64_thousand_twice.
    unfold Go.in_int64, Go.min_int64, Go.max_int64. lia. }
  split; [apply process_parse_ok, Hparse |].
  split; [exact Hbytes |].
  intros ->. rewrite Hbytes. split; [reflexivity |].
  intros s. unfold Cache.evict.
  destruct (base.size (Cache.index s)); reflexivity.
Qed.

(** C8. When the process gets to build its store, the bound on concurrent
    fetches is ten times the number of gitserver addresses (a slice
    length, so ten times it is still an [int]). *)
Theorem fetch_bound_is_ten_per_gitserver i :
  Strconv.ParseInt10_64 (cacheSizeMB env) = inl i ->
  10 * Z.of_nat (length (Addrs env)) <= Go.max_int64 ->
  exists st,
    startedStore process.1 = Some st
    /\ MaxConcurrentFetchTar st = 10 * Z.of_nat (length (Addrs env)).
Proof.
  intros Hparse Hlen. exists (storeFor i).
  split; [apply process_parse_ok, Hparse |].
  cbn [MaxConcurrentFetchTar ServiceStore newService].
  apply GoSpec.mul64_exact.
  unfold Go.in_int64, Go.min_int64, Go.max_int64 in *. lia.
Qed.

(** C10. When SEARCHER_CACHE_SIZE_MB does not parse as a decimal 64-bit
    integer, the process ends in [log.Fatalf]: the fatal message is its
    last event, and no event before it starts the store or serves
    requests. *)
Theorem invalid_cache_size_is_fatal err :
  Strconv.ParseInt10_64 (cacheSizeMB env) = inr err ->
  process.2 = ExitFatal
  /\ last process.1 = Some (LogFatalf "invalid int %q for SEARCHER_CACHE_SIZE_MB: %s"
                                      (cacheSizeMB env) err)
  /\ Forall quiet process.1
  /\ startedStore process.1 = None.
Proof.
  intros Hparse.
  destruct (process_parse_error err Hparse) as (pre & -> & Hquiet).
  assert (Hall : Forall quiet
            (pre ++ [LogFatalf "invalid int %q for SEARCHER_CACHE_SIZE_MB: %s"
                               (cacheSizeMB env) err])).
  { apply Forall_app. split; [exact Hquiet |]. repeat constructor. }
  split; [reflexivity |].
  split; [apply last_snoc |].
  split; [exact Hall |].
  cbn [fst]. unfold startedStore.
  replace (filter _ _) with (@nil Event); [reflexivity |].
  symmetry. clear -Hall.
  induction Hall as [| e l [He _] _ IH]; [reflexivity |].
  rewrite filter_cons_False by (rewrite He; discriminate). exact IH.
Qed.

End WithLibraries.

(** C7, as first stated, fails where the product leaves the signed 64-bit
    range: the setting 9223372036855 parses, and the store is started with a
    negative bound that is not 9223372036855 times 1,000,000. *)
Lemma cache_bound_wraps_around :
  Strconv.ParseInt10_64 "9223372036855" = inl 9223372036855
  /\ exists st,
       startedStore (sampleProcess "9223372036855").1 = Some st
       /\ MaxCacheSizeBytes st = -9223372036854551616
       /\ MaxCacheSizeBytes st <> 9223372036855 * 1000000.
Proof.
  split; [reflexivity |].
  eexists. split; [reflexivity |]. split; [reflexivity |]. discriminate.
Qed.

(** [main] with SEARCHER_CACHE_SIZE_MB=2000. *)
Lemma cache_bound_is_megabytes_witness :
  exists st,
    startedStore (sampleProcess "2000").1 = Some st
    /\ MaxCacheSizeBytes st = 2000 * 1000000
    /\ (2000 = 0 ->
        MaxCacheSizeBytes st = 0
        /\ forall s, Cache.evict (MaxCacheSizeBytes st) s = s).
Proof.
  apply (cache_bound_is_megabytes sampleJoin (sampleEnv "2000") ErrServerClosed 2000).
  - reflexivity.
  - lia.
Defined.

(** [main] with two gitserver addresses. *)
Lemma fetch_bound_is_ten_per_gitserver_witness :
  exists st,
    startedStore (sampleProcess "0").1 = Some st
    /\ MaxConcurrentFetchTar st = 10 * Z.of_nat 2.
Proof.
  apply (fetch_bound_is_ten_per_gitserver sampleJoin (sampleEnv "0") ErrServerClosed 0).
  - reflexivity.
  - unfold Go.max_int64. cbn. lia.
Defined.

(** [main] with SEARCHER_CACHE_SIZE_MB=2GB. *)
Lemma invalid_cache_size_is_fatal_witness :
  (sampleProcess "2GB").2 = ExitFatal
  /\ last (sampleProcess "2GB").1
     = Some (LogFatalf "invalid int %q for SEARCHER_CACHE_SIZE_MB: %s" "2GB"
                       Strconv.ErrSyntax)
  /\ Forall quiet (sampleProcess "2GB").1
  /\ startedStore (sampleProcess "2GB").1 = None.
Proof.
  apply (invalid_cache_size_is_fatal sampleJoin (sampleEnv "2GB") ErrServerClosed
           Strconv.ErrSyntax).
  reflexivity.
Defined.

End BootstrapSpec.

(** ** Process lifecycle *)

Module LifecycleSpec.
Import Lifecycle.

(** The grace period is ten seconds. *)
Lemma gracePeriod_ten_seconds : gracePeriod = 10 * Second /\ gracePeriod = 10000000000.
Proof. split; reflexivity. Qed.

(** Once the interrupt has been taken, no request is accepted any more. *)
Lemma interrupt_stops_accepting p p' need :
  step Interrupt p = Some p' -> step (Accept need) p' = None.
Proof.
  unfold step. destruct (exited p); [discriminate |].
  destruct (sigG p); try discriminate.
  intros H. injection H as <-. reflexivity.
Qed.

(** When every request in flight has finished, [Shutdown] returns nil and
    [shutdownOnSIGINT] returns without ending the process. *)
Lemma shutdown_returns_when_drained p deadline :
  exited p = None -> sigG p = InShutdown deadline -> active p = [] ->
  exists p', step RunShutdown p = Some p' /\ sigG p' = SignalDone /\ exited p' = None.
Proof.
  intros Hex Hsig Hact. unfold step. rewrite Hex, Hsig, Hact.
  eexists. repeat split.
Qed.

(** [log.Fatal] in [shutdownOnSIGINT] is reached only when the deadline has
    passed with requests still in flight. *)
Lemma shutdown_fatal_only_after_deadline p p' :
  step RunShutdown p = Some p' -> exited p' = Some Bootstrap.ExitFatal ->
  exists deadline, sigG p = InShutdown deadline /\ deadline <= now p /\ active p <> [].
Proof.
  unfold step. destruct (exited p); [discriminate |].
  destruct (sigG p) as [| deadline |]; try discriminate.
  destruct (active p) as [| r rest]; [intros H; injection H as <-; discriminate |].
  destruct (deadline <=? now p) eqn:Hd; [| discriminate].
  intros _ _. exists deadline. repeat split; [lia | discriminate].
Qed.

(** After the interrupt the main goroutine can always run, and when it does
    the process ends at once with every request in flight cut off, whatever
    the deadline. *)
Lemma main_returns_after_interrupt p :
  exited p = None -> mainG p = Serving -> sigG p = AwaitSignal ->
  exists p',
    run [Interrupt; RunMain] p = Some p'
    /\ exited p' = Some Bootstrap.ExitReturn
    /\ abandoned p' = active p
    /\ now p' = now p.
Proof.
  intros Hex Hmain Hsig. cbn [run]. unfold step.
  rewrite Hex, Hsig. cbn. rewrite Hmain.
  eexists. repeat split.
Qed.

(** C9. The claim asks that requests in flight at the interrupt are drained
    for up to ten seconds.  The program does not do so: with one request in
    flight that needs one second, the interrupt makes [ListenAndServe]
    return, [main] returns, and the process ends with status 0 at the very
    time of the interrupt, ten seconds before the deadline, the request
    unfinished. *)
Theorem interrupt_cuts_off_request_in_flight :
  exists p,
    run [Interrupt; RunMain] (serving [Second]) = Some p
    /\ exited p = Some Bootstrap.ExitReturn
    /\ abandoned p = [Second]
    /\ now p = 0
    /\ sigG p = InShutdown gracePeriod
    /\ now p < gracePeriod.
Proof.
  eexists. split; [reflexivity |]. repeat split.
Qed.

End LifecycleSpec.

(** ** The archive cache *)

Module CacheSpec.
Import Cache.

(** *** Victim selection *)

Lemma oldest_is_member (l : list (ArchiveKey * CacheEntry)) x :
  foldr (fun x acc => match acc with
                      | None => Some x
                      | Some y => Some (older x y)
                      end) None l = Some x ->
  x ∈ l.
Proof.
  revert x. induction l as [| a l IH]; intros x; cbn [foldr]; [discriminate |].
  destruct (foldr _ None l) as [y |].
  - intros [= <-]. unfold older.
    destruct (lastAccess a.2 <=? lastAccess y.2)%nat.
    + apply elem_of_cons. now left.
    + apply elem_of_cons. right. now apply IH.
  - intros [= <-]. apply elem_of_cons. now left.
Qed.

Lemma selectVictim_unpinned idx k e :
  selectVictim idx = Some (k, e) -> idx !! k = Some e /\ refCount e = 0%nat.
Proof.
  intros H. apply oldest_is_member in H.
  apply list_elem_of_filter in H as [Hzero Hin].
  apply elem_of_map_to_list in Hin. split; [exact Hin | exact Hzero].
Qed.

(** *** The eviction pass *)

Lemma evictLoop_preserves (P : State -> Prop) :
  (forall s k e, P s -> index s !! k = Some e -> refCount e = 0%nat -> P (remove k e s)) ->
  forall fuel max s, P s -> P (evictLoop fuel max s).
Proof.
  intros Hremove fuel max. induction fuel as [| fuel IH]; intros s Hs; cbn [evictLoop];
    [exact Hs |].
  destruct ((max =? 0) || (totalSize s <=? max)); [exact Hs |].
  destruct (selectVictim (index s)) as [[k e] |] eqn:Hvictim; [| exact Hs].
  apply selectVictim_unpinned in Hvictim as [Hk He].
  apply IH. now apply (Hremove s k e).
Qed.

Lemma evict_preserves (P : State -> Prop) :
  (forall s k e, P s -> index s !! k = Some e -> refCount e = 0%nat -> P (remove k e s)) ->
  forall max s, P s -> P (evict max s).
Proof. intros Hremove max s. apply evictLoop_preserves, Hremove. Qed.

Lemma evict_keeps_pinned max s k e :
  index s !! k = Some e -> (0 < refCount e)%nat -> index (evict max s) !! k = Some e.
Proof.
  intros Hk Hpin.
  apply (evict_preserves (fun s => index s !! k = Some e)); [| exact Hk].
  intros s0 k0 e0 Hk0 Hvictim Hzero. cbn [remove index].
  rewrite lookup_delete_ne; [exact Hk0 |].
  intros ->. rewrite Hk0 in Hvictim. injection Hvictim as ->. lia.
Qed.

Lemma evict_keeps_absent max s k :
  index s !! k = None -> index (evict max s) !! k = None.
Proof.
  apply (evict_preserves (fun s => index s !! k = None)).
  intros s0 k0 e0 Hk0 _ _. cbn [remove index].
  apply lookup_delete_None. now right.
Qed.

Lemma evict_frame max s :
  coordinators (evict max s) = coordinators s
  /\ fetchLog (evict max s) = fetchLog s
  /\ outcomes (evict max s) = outcomes s.
Proof.
  apply (evict_preserves (fun s' => coordinators s' = coordinators s
                                    /\ fetchLog s' = fetchLog s
                                    /\ outcomes s' = outcomes s)).
  - intros s0 k0 e0 H _ _. exact H.
  - repeat split.
Qed.

Lemma remove_consistent s k e :
  consistent s -> index s !! k = Some e -> consistent (remove k e s).
Proof.
  intros [Hdisk Hco] Hk. split; cbn [remove index disk coordinators].
  - intros k0. rewrite elem_of_difference, elem_of_singleton, Hdisk.
    destruct (decide (k0 = k)) as [-> | Hne].
    + rewrite lookup_delete_eq. split; [intros [_ []]; reflexivity | intros []; discriminate].
    + rewrite lookup_delete_ne by congruence. tauto.
  - intros k0 Hk0. apply lookup_delete_None. right. now apply Hco.
Qed.

Lemma evict_consistent max s : consistent s -> consistent (evict max s).
Proof.
  apply (evict_preserves consistent).
  intros s0 k0 e0 H Hk _. now apply (remove_consistent s0 k0 e0).
Qed.

(** *** Consistency of the shared state *)

Lemma empty_consistent : consistent empty.
Proof.
  split; cbn.
  - intros k. rewrite lookup_empty. split; [set_solver | intros []; discriminate].
  - intros k. rewrite lookup_empty. intros []; discriminate.
Qed.

(** Overwriting the entry of a cached key changes neither the set of cached
    keys nor the coordinators. *)
Lemma update_consistent s k e e' cl fl oc :
  consistent s -> index s !! k = Some e ->
  consistent (mkState (<[k := e']> (index s)) (coordinators s) (totalSize s)
                      (disk s) cl fl oc).
Proof.
  intros [Hdisk Hco] Hk. split; cbn.
  - intros k0. rewrite Hdisk, lookup_insert_is_Some.
    destruct (decide (k = k0)) as [<- | Hne]; [| tauto].
    split; [now left | intros _; now exists e].
  - intros k0 Hk0. apply lookup_insert_None. split; [now apply Hco |].
    intros <-. apply Hco in Hk0. congruence.
Qed.

Lemma acquire_consistent c k s : consistent s -> consistent (acquire c k s).
Proof.
  intros Hs. unfold acquire.
  destruct (index s !! k) as [e |] eqn:Hk.
  - now apply update_consistent with e.
  - destruct Hs as [Hdisk Hco].
    destruct (coordinators s !! k) as [ws |]; (split; cbn; [exact Hdisk |]);
      intros k0; rewrite lookup_insert_is_Some;
      (intros [<- | [_ Hk0]]; [exact Hk | now apply Hco]).
Qed.

Lemma release_consistent k s : consistent s -> consistent (release k s).
Proof.
  intros Hs. unfold release.
  destruct (index s !! k) as [e |] eqn:Hk; [| exact Hs].
  destruct (refCount e); [exact Hs |].
  now apply update_consistent with e.
Qed.

Lemma resolve_consistent max k r s : consistent s -> consistent (resolve max k r s).
Proof.
  intros Hs. unfold resolve.
  destruct (coordinators s !! k) as [ws |] eqn:Hws; [| exact Hs].
  destruct Hs as [Hdisk Hco].
  destruct r as [bytes | err].
  - apply evict_consistent. split; cbn.
    + intros k0. rewrite elem_of_union, elem_of_singleton, Hdisk, lookup_insert_is_Some.
      destruct (decide (k = k0)) as [<- | Hne].
      * split; [now left | intros _; now right].
      * split; [intros [H | H]; [right; now split | congruence]
               | intros [H | [_ H]]; [congruence | now left]].
    + intros k0 Hk0. apply lookup_delete_is_Some in Hk0 as [Hne Hk0].
      apply lookup_insert_None. split; [now apply Hco | congruence].
  - split; cbn; [exact Hdisk |].
    intros k0 Hk0. apply lookup_delete_is_Some in Hk0 as [_ Hk0]. now apply Hco.
Qed.

Lemma step_consistent max op s : consistent s -> consistent (step max op s).
Proof.
  destruct op as [c k | k r | k |]; cbn [step].
  - apply acquire_consistent.
  - apply resolve_consistent.
  - apply release_consistent.
  - apply evict_consistent.
Qed.

Lemma run_consistent max ops s : consistent s -> consistent (run max ops s).
Proof.
  revert s. induction ops as [| op ops IH]; intros s Hs; [exact Hs |].
  cbn. apply IH. now apply step_consistent.
Qed.

Lemma reachable_consistent max ops : consistent (run max ops empty).
Proof. apply run_consistent, empty_consistent. Qed.

(** *** Pinned entries *)

Lemma step_keeps_pinned max op s k :
  consistent s -> pinned s k -> is_Some (index (step max op s) !! k).
Proof.
  intros [Hdisk Hco] (e & Hk & Hpin).
  destruct op as [c k' | k' r | k' |]; cbn [step].
  - unfold acquire. destruct (index s !! k') as [e' |] eqn:Hk'.
    + cbn. apply lookup_insert_is_Some'. right. now exists e.
    + destruct (coordinators s !! k'); cbn; now exists e.
  - unfold resolve. destruct (coordinators s !! k') as [ws |] eqn:Hws; [| now exists e].
    assert (Hne : k' <> k).
    { intros ->. rewrite Hco in Hk by now exists ws. discriminate. }
    destruct r as [bytes | err]; [| cbn; now exists e].
    exists e. apply evict_keeps_pinned; [| exact Hpin].
    cbn. now rewrite lookup_insert_ne.
  - unfold release. destruct (index s !! k') as [e' |] eqn:Hk'; [| now exists e].
    destruct (refCount e'); [now exists e |].
    cbn. apply lookup_insert_is_Some'. right. now exists e.
  - exists e. now apply evict_keeps_pinned.
Qed.

(** *** One fetch per key *)

Lemma resolveAll_member ws o m c : c ∈ ws -> resolveAll ws o m !! c = Some o.
Proof.
  induction ws as [| w ws IH]; intros Hc; [now apply elem_of_nil in Hc |].
  cbn. destruct (decide (w = c)) as [-> | Hne].
  - apply lookup_insert_eq.
  - rewrite lookup_insert_ne by exact Hne. apply IH.
    apply elem_of_cons in Hc as [-> | Hc]; [congruence | exact Hc].
Qed.

Lemma fetchCount_snoc k k' idx co total dk cl log oc :
  fetchCount k (mkState idx co total dk cl (log ++ [k']) oc)
  = (length (filter (fun x => x = k) log) + (if decide (k' = k) then 1 else 0))%nat.
Proof.
  unfold fetchCount. cbn [fetchLog]. rewrite filter_app, List.length_app.
  f_equal. destruct (decide (k' = k)) as [Heq | Hne].
  - now rewrite filter_cons_True.
  - now rewrite filter_cons_False.
Qed.

(** An operation that does not end the fetch of [k] leaves [k] out of the
    index if it was out. *)
Lemma step_keeps_absent max op s k :
  resolves k op = false -> index s !! k = None -> index (step max op s) !! k = None.
Proof.
  intros Hop Hk. destruct op as [c k' | k' r | k' |]; cbn [step].
  - unfold acquire. destruct (index s !! k') as [e' |] eqn:Hk'.
    + cbn. apply lookup_insert_None. split; [exact Hk | congruence].
    + destruct (coordinators s !! k'); exact Hk.
  - cbn in Hop. apply bool_decide_eq_false in Hop.
    unfold resolve. destruct (coordinators s !! k') as [ws |]; [| exact Hk].
    destruct r as [bytes | err]; [| exact Hk].
    apply evict_keeps_absent. cbn. apply lookup_insert_None. now split.
  - unfold release. destruct (index s !! k') as [e' |] eqn:Hk'; [| exact Hk].
    destruct (refCount e'); [exact Hk |].
    cbn. apply lookup_insert_None. split; [exact Hk | congruence].
  - now apply evict_keeps_absent.
Qed.

(** The coordinator of [k] and the fetches started for [k], across one
    operation that does not end the fetch of [k], while [k] is not cached. *)
Lemma step_window max op s k :
  resolves k op = false -> index s !! k = None ->
  match coordinators s !! k with
  | Some ws =>
      coordinators (step max op s) !! k = Some (ws ++ acquirers k [op])
      /\ fetchCount k (step max op s) = fetchCount k s
  | None =>
      match acquirers k [op] with
      | [] => coordinators (step max op s) !! k = None
              /\ fetchCount k (step max op s) = fetchCount k s
      | cs => coordinators (step max op s) !! k = Some cs
              /\ fetchCount k (step max op s) = S (fetchCount k s)
      end
  end.
Proof.
  intros Hop Hk. destruct op as [c k' | k' r | k' |]; cbn [step acquirers].
  - destruct (decide (k' = k)) as [-> | Hne].
    + rewrite bool_decide_eq_true_2 by reflexivity.
      unfold acquire. rewrite Hk.
      destruct (coordinators s !! k) as [ws |] eqn:Hws; cbn [coordinators].
      * rewrite lookup_insert_eq. now split.
      * rewrite lookup_insert_eq. split; [reflexivity |].
        rewrite fetchCount_snoc.
        rewrite decide_True by reflexivity. unfold fetchCount. lia.
    + rewrite bool_decide_eq_false_2 by exact Hne.
      assert (Hco : coordinators (acquire c k' s) !! k = coordinators s !! k).
      { unfold acquire. destruct (index s !! k'); [reflexivity |].
        destruct (coordinators s !! k'); cbn; now rewrite lookup_insert_ne. }
      assert (Hfc : fetchCount k (acquire c k' s) = fetchCount k s).
      { unfold acquire. destruct (index s !! k'); [reflexivity |].
        destruct (coordinators s !! k'); [reflexivity |].
        rewrite fetchCount_snoc.
        rewrite decide_False by exact Hne. unfold fetchCount. lia. }
      rewrite Hco, Hfc.
      destruct (coordinators s !! k); [rewrite app_nil_r |]; now split.
  - cbn in Hop. apply bool_decide_eq_false in Hop.
    assert (Hco : coordinators (resolve max k' r s) !! k = coordinators s !! k).
    { unfold resolve. destruct (coordinators s !! k') as [ws |]; [| reflexivity].
      destruct r as [bytes | err].
      - destruct (evict_frame max
          (mkState (<[k' := mkEntry bytes (clock s) (length ws)]> (index s))
                   (delete k' (coordinators s)) (totalSize s + bytes)
                   (disk s ∪ {[k']}) (S (clock s)) (fetchLog s)
                   (resolveAll ws (View k') (outcomes s)))) as (-> & _ & _).
        cbn. now rewrite lookup_delete_ne.
      - cbn. now rewrite lookup_delete_ne. }
    assert (Hfc : fetchCount k (resolve max k' r s) = fetchCount k s).
    { unfold resolve, fetchCount. destruct (coordinators s !! k') as [ws |]; [| reflexivity].
      destruct r as [bytes | err]; [| reflexivity].
      destruct (evict_frame max
          (mkState (<[k' := mkEntry bytes (clock s) (length ws)]> (index s))
                   (delete k' (coordinators s)) (totalSize s + bytes)
                   (disk s ∪ {[k']}) (S (clock s)) (fetchLog s)
                   (resolveAll ws (View k') (outcomes s)))) as (_ & -> & _).
      reflexivity. }
    rewrite Hco, Hfc.
    destruct (coordinators s !! k); [rewrite app_nil_r |]; now split.
  - assert (Hsame : coordinators (release k' s) = coordinators s
                    /\ fetchLog (release k' s) = fetchLog s).
    { unfold release. destruct (index s !! k'); [| now split].
      destruct (refCount _); now split. }
    destruct Hsame as [Hco Hfl]. unfold fetchCount. rewrite Hco, Hfl.
    destruct (coordinators s !! k); [rewrite app_nil_r |]; now split.
  - destruct (evict_frame max s) as (Hco & Hfl & _).
    unfold fetchCount. rewrite Hco, Hfl.
    destruct (coordinators s !! k); [rewrite app_nil_r |]; now split.
Qed.

Lemma acquirers_cons k op ops :
  acquirers k (op :: ops) = acquirers k [op] ++ acquirers k ops.
Proof.
  destruct op as [c k' | | |]; cbn [acquirers]; try reflexivity.
  destruct (bool_decide (k' = k)); reflexivity.
Qed.

(** The same across an interleaving none of whose operations ends the fetch
    of [k]: the waiters of the fetch are the callers that acquired [k], in
    order, and one fetch was started if there was none. *)
Lemma run_window max ops : forall s k,
  Forall (fun op => resolves k op = false) ops ->
  index s !! k = None ->
  index (run max ops s) !! k = None
  /\ match coordinators s !! k with
     | Some ws =>
         coordinators (run max ops s) !! k = Some (ws ++ acquirers k ops)
         /\ fetchCount k (run max ops s) = fetchCount k s
     | None =>
         match acquirers k ops with
         | [] => coordinators (run max ops s) !! k = None
                 /\ fetchCount k (run max ops s) = fetchCount k s
         | cs => coordinators (run max ops s) !! k = Some cs
                 /\ fetchCount k (run max ops s) = S (fetchCount k s)
         end
     end.
Proof.
  induction ops as [| op ops IH]; intros s k Hops Hk.
  - cbn. split; [exact Hk |].
    destruct (coordinators s !! k); [rewrite app_nil_r |]; now split.
  - apply Forall_cons in Hops as [Hop Hops].
    pose proof (step_keeps_absent max op s k Hop Hk) as Hk'.
    pose proof (step_window max op s k Hop Hk) as Hstep.
    destruct (IH (step max op s) k Hops Hk') as [Habsent Hrest].
    change (run max (op :: ops) s) with (run max ops (step max op s)).
    split; [exact Habsent |].
    rewrite acquirers_cons.
    destruct (coordinators s !! k) as [ws |].
    + destruct Hstep as [Hco Hfc]. rewrite Hco in Hrest.
      destruct Hrest as [Hco' Hfc']. rewrite Hco', Hfc', Hfc, app_assoc. now split.
    + destruct (acquirers k [op]) as [| c cs].
      * destruct Hstep as [Hco Hfc]. rewrite Hco in Hrest. cbn [app].
        destruct (acquirers k ops); destruct Hrest as [Hco' Hfc'];
          rewrite Hco', Hfc', Hfc; now split.
      * destruct Hstep as [Hco Hfc]. rewrite Hco in Hrest.
        destruct Hrest as [Hco' Hfc']. cbn [app].
        rewrite Hco', Hfc', Hfc. now split.
Qed.

(** C4. Take a key that is neither cached nor being fetched, and any
    interleaving of operations in which N >= 1 callers acquire that key,
    mixed with any operations on other keys, before the fetch of the key
    ends.  When the fetch ends, exactly one fetch has been started for the
    key, every one of the N callers has the outcome of that fetch, the same
    for all, and the coordinator is gone. *)
Theorem concurrent_acquisitions_share_one_fetch max s ops k r N :
  index s !! k = None ->
  coordinators s !! k = None ->
  Forall (fun op => resolves k op = false) ops ->
  length (acquirers k ops) = N ->
  (0 < N)%nat ->
  fetchCount k (step max (Resolve k r) (run max ops s)) = S (fetchCount k s)
  /\ (forall c, c ∈ acquirers k ops ->
        outcomes (step max (Resolve k r) (run max ops s)) !! c = Some (outcomeOf k r))
  /\ coordinators (step max (Resolve k r) (run max ops s)) !! k = None.
Proof.
  intros Hk Hco Hops HN Hpos.
  destruct (run_window max ops s k Hops Hk) as [_ Hwin]. rewrite Hco in Hwin.
  destruct (acquirers k ops) as [| c0 cs] eqn:Hacq; [cbn in HN; lia |].
  destruct Hwin as [Hws Hfc].
  cbn [step]. unfold resolve. rewrite Hws.
  destruct r as [bytes | err].
  - match goal with
    | |- context [evict max ?st] =>
        destruct (evict_frame max st) as (Hco' & Hfl' & Hoc')
    end.
    unfold fetchCount in *. rewrite Hco', Hfl', Hoc'. cbn [coordinators fetchLog outcomes].
    split; [exact Hfc |]. split.
    + intros c Hc. now apply resolveAll_member.
    + apply lookup_delete_eq.
  - unfold fetchCount in *. cbn [coordinators fetchLog outcomes].
    split; [exact Hfc |]. split.
    + intros c Hc. now apply resolveAll_member.
    + apply lookup_delete_eq.
Qed.

(** C5. In every state the cache can reach, an entry whose reference count
    is greater than zero is not the victim the eviction pass selects, and it
    is still in the index after any further operation: acquire, end of a
    fetch, release or eviction. *)
Theorem pinned_entry_is_never_evicted max ops op k :
  pinned (run max ops empty) k ->
  (forall victim e,
      selectVictim (index (run max ops empty)) = Some (victim, e) -> victim <> k)
  /\ is_Some (index (step max op (run max ops empty)) !! k).
Proof.
  intros Hpin. split.
  - intros victim e Hvictim ->.
    apply selectVictim_unpinned in Hvictim as [Hk Hzero].
    destruct Hpin as (e' & Hk' & Hpos). rewrite Hk in Hk'. injection Hk' as <-. lia.
  - apply step_keeps_pinned; [apply reachable_consistent | exact Hpin].
Qed.


(** Three callers acquire ("r", "c1") while a fourth acquires another key;
    the fetch fails. *)
Lemma concurrent_acquisitions_share_one_fetch_witness :
  fetchCount k1 (step 0 (Resolve k1 (inr "connection refused"))
                   (run 0 burst empty))
    = S (fetchCount k1 empty)
  /\ (forall c, c ∈ acquirers k1 burst ->
        outcomes (step 0 (Resolve k1 (inr "connection refused"))
                    (run 0 burst empty))
          !! c = Some (outcomeOf k1 (inr "connection refused")))
  /\ coordinators (step 0 (Resolve k1 (inr "connection refused"))
                    (run 0 burst empty))
       !! k1 = None.
Proof.
  apply (concurrent_acquisitions_share_one_fetch 0 empty
           burst k1
           (inr "connection refused") 3).
  - reflexivity.
  - reflexivity.
  - repeat constructor.
  - reflexivity.
  - lia.
Defined.

(** A cache over its bound of 150 bytes with one entry held and one
    released. *)
Lemma pinned_entry_is_never_evicted_witness :
  (forall victim e,
      selectVictim (index (run 150 busy empty)) = Some (victim, e) -> victim <> k1)
  /\ is_Some (index (step 150 Evict (run 150 busy empty)) !! k1).
Proof.
  apply (pinned_entry_is_never_evicted 150 busy Evict k1).
  exists (mkEntry 100 0%nat 1%nat). split; [vm_compute; reflexivity | cbn; lia].
Defined.


(** The eviction pass does remove the released entry, and only that one. *)
Example eviction_removes_the_unpinned_entry :
  index (step 150 Evict (run 150 busy empty)) !! k2 = None
  /\ index (step 150 Evict (run 150 busy empty)) !! k1 = Some (mkEntry 100 0%nat 1%nat)
  /\ totalSize (run 150 busy empty) = 200
  /\ totalSize (step 150 Evict (run 150 busy empty)) = 100.
Proof. vm_compute. repeat split. Qed.
End CacheSpec.

(** ** The archive fetcher: every path of [fetchTar] *)

Module FetcherPaths.
Import Fetcher.

Section WithTransport.

Context {E : Type} `{EqDecision E}.
Variable Error_ext : E -> string.
Variable IsRepoNotExist : E -> bool.
Variable ErrRevisionNotFound : E.
Variable ReadCloser : Type.
Variable respond : list Cmd -> Cmd -> ReadCloser + E.

Local Abbreviation fetchTar :=
  (Fetcher.fetchTar E Error_ext IsRepoNotExist ErrRevisionNotFound ReadCloser respond).
Local Abbreviation fetchTar_body :=
  (Fetcher.fetchTar_body E Error_ext IsRepoNotExist ErrRevisionNotFound ReadCloser
                         respond).
Local Abbreviation fetchEach :=
  (Fetcher.fetchEach E Error_ext IsRepoNotExist ErrRevisionNotFound ReadCloser respond).

(** The three ways the body ends once the guard is passed. *)
Lemma fetchTar_body_cases repo commit w :
  Go.HasPrefix commit "-" = false ->
  (fetchTar_body repo commit w).2
    = mkWorld (issued w ++ [archiveCmd repo commit]) (spans w)
  /\ match respond (issued w) (archiveCmd repo commit) with
     | inl r => (fetchTar_body repo commit w).1 = inl r
     | inr err =>
         (fetchTar_body repo commit w).1
         = inr (if IsRepoNotExist err || bool_decide (err = ErrRevisionNotFound)
                then OfBadRequest (mkBadRequestError (Error_ext err))
                else Foreign err)
     end.
Proof.
  intros Hguard. unfold Fetcher.fetchTar_body. rewrite Hguard. cbn [StdoutReader].
  destruct (respond (issued w) (archiveCmd repo commit)) as [r | err];
    [now split |].
  destruct (IsRepoNotExist err || bool_decide (err = ErrRevisionNotFound)); now split.
Qed.

Lemma fetchTar_body_rejected repo commit w :
  Go.HasPrefix commit "-" = true ->
  fetchTar_body repo commit w
  = (inr (OfBadRequest (mkBadRequestError "invalid git revision spec (begins with '-')")),
     w).
Proof. intros Hflag. unfold Fetcher.fetchTar_body. now rewrite Hflag. Qed.

Lemma fetchTar_fst repo commit w :
  (fetchTar repo commit w).1 = (fetchTar_body repo commit w).1.
Proof.
  unfold Fetcher.fetchTar. destruct (fetchTar_body repo commit w) as [res w'].
  reflexivity.
Qed.

Lemma fetchTar_snd_issued repo commit w :
  issued (fetchTar repo commit w).2 = issued (fetchTar_body repo commit w).2.
Proof.
  unfold Fetcher.fetchTar. destruct (fetchTar_body repo commit w) as [res w'].
  reflexivity.
Qed.

Lemma fetchTar_body_spans repo commit w :
  spans (fetchTar_body repo commit w).2 = spans w.
Proof.
  destruct (Go.HasPrefix commit "-") eqn:Hguard.
  - now rewrite fetchTar_body_rejected.
  - now destruct (fetchTar_body_cases repo commit w Hguard) as [-> _].
Qed.

(** The commands sent after a call. *)
Lemma fetchTar_issued_after repo commit w :
  issued (fetchTar repo commit w).2
  = issued w ++ (if Go.HasPrefix commit "-" then [] else [archiveCmd repo commit]).
Proof.
  rewrite fetchTar_snd_issued.
  destruct (Go.HasPrefix commit "-") eqn:Hguard.
  - rewrite fetchTar_body_rejected by exact Hguard. cbn. now rewrite app_nil_r.
  - now destruct (fetchTar_body_cases repo commit w Hguard) as [-> _].
Qed.

(** The number of spans reported after a call. *)
Lemma fetchTar_span_count repo commit w :
  length (spans (fetchTar repo commit w).2) = S (length (spans w)).
Proof.
  pose proof (fetchTar_body_spans repo commit w) as Hsp.
  unfold Fetcher.fetchTar.
  destruct (fetchTar_body repo commit w) as [res w']. cbn [fst snd] in *.
  cbn [Finish spans]. rewrite Hsp, List.length_app. cbn [length]. lia.
Qed.

(** X1. When the commit passes the guard and the remote service answers with
    a stream, [fetchTar] returns that very stream and no error, having sent
    the one archive command. *)
Theorem fetchTar_success_returns_stream repo commit w r :
  Go.HasPrefix commit "-" = false ->
  respond (issued w) (archiveCmd repo commit) = inl r ->
  (fetchTar repo commit w).1 = inl r
  /\ issued (fetchTar repo commit w).2 = issued w ++ [archiveCmd repo commit].
Proof.
  intros Hguard Hresp.
  destruct (fetchTar_body_cases repo commit w Hguard) as [Hw Hres].
  rewrite Hresp in Hres.
  rewrite fetchTar_fst, fetchTar_snd_issued, Hres, Hw. now split.
Qed.

(** X2. A call of [fetchTar] invokes the remote service once if the commit
    does not begin with '-', whatever the service answers, and not at all if
    it does; the command sent is git archive --format=tar <commit> for the
    repository, with EnsureRevision set to the commit, and the commands sent
    before are untouched.  An empty commit passes the guard. *)
Theorem fetchTar_invokes_once_or_never repo commit w :
  issued (fetchTar repo commit w).2
  = issued w ++ (if Go.HasPrefix commit "-" then []
                 else [mkCmd ["git"; "archive"; "--format=tar"; commit] repo commit])
  /\ fetches E w (fetchTar repo commit w).2
     = (if Go.HasPrefix commit "-" then 0 else 1)
  /\ Go.HasPrefix "" "-" = false.
Proof.
  pose proof (fetchTar_issued_after repo commit w) as Hiss.
  split; [exact Hiss |]. split; [| reflexivity].
  unfold fetches. rewrite Hiss, List.length_app.
  destruct (Go.HasPrefix commit "-"); cbn [length]; lia.
Qed.

(** X3. Every call of [fetchTar] reports exactly one span, finished, named
    OpenTar and tagged with component git, the repository and the commit;
    the span carries error = true and the error value exactly when the call
    returns an error, the rejected flag-like commit included. *)
Theorem fetchTar_reports_one_span repo commit w :
  exists sp,
    spans (fetchTar repo commit w).2 = spans w ++ [sp]
    /\ operationName sp = "OpenTar"
    /\ finished sp = true
    /\ tagOf E "component" sp = Some (TagString "git")
    /\ tagOf E "URL" sp = Some (TagString repo)
    /\ tagOf E "Commit" sp = Some (TagString commit)
    /\ match (fetchTar repo commit w).1 with
       | inr err => tagOf E "error" sp = Some (TagBool true)
                    /\ tagOf E "err" sp = Some (TagError err)
       | inl _ => tagOf E "error" sp = None /\ tagOf E "err" sp = None
       end.
Proof.
  pose proof (fetchTar_body_spans repo commit w) as Hsp.
  unfold Fetcher.fetchTar.
  destruct (fetchTar_body repo commit w) as [[r | err] w']; cbn [fst snd] in *;
    eexists; (split; [cbn [Finish spans]; rewrite Hsp; reflexivity |]);
    repeat split.
Qed.

(** X4. [fetchTar] never hands a repository-does-not-exist or
    revision-not-found error of the remote service through as it is: an
    error of another package that it returns is the answer of the service to
    the archive command and is of neither kind. *)
Theorem fetchTar_never_returns_raw_not_found repo commit w e :
  (fetchTar repo commit w).1 = inr (Foreign e) ->
  respond (issued w) (archiveCmd repo commit) = inr e
  /\ IsRepoNotExist e = false
  /\ e <> ErrRevisionNotFound.
Proof.
  rewrite fetchTar_fst. intros Hres.
  destruct (Go.HasPrefix commit "-") eqn:Hguard.
  - rewrite fetchTar_body_rejected in Hres by exact Hguard. discriminate.
  - destruct (fetchTar_body_cases repo commit w Hguard) as [_ Hcase].
    destruct (respond (issued w) (archiveCmd repo commit)) as [r | err];
      rewrite Hcase in Hres; [discriminate |].
    destruct (IsRepoNotExist err) eqn:Hrepo; [discriminate |].
    destruct (bool_decide (err = ErrRevisionNotFound)) eqn:Hrev; [discriminate |].
    cbn in Hres. injection Hres as <-.
    split; [reflexivity |]. split; [exact Hrepo |].
    now apply bool_decide_eq_false in Hrev.
Qed.

(** X17. [fetchTar] blames the client only for client causes: when it returns
    a [badRequestError], either the commit begins with '-', or the remote
    service answered the archive command with a repository-does-not-exist or
    revision-not-found error, whose message the returned error carries. *)
Theorem fetchTar_bad_request_only_for_client_causes repo commit w b :
  (fetchTar repo commit w).1 = inr (OfBadRequest b) ->
  (Go.HasPrefix commit "-" = true
   /\ msg b = "invalid git revision spec (begins with '-')")
  \/ (Go.HasPrefix commit "-" = false
      /\ exists err,
           respond (issued w) (archiveCmd repo commit) = inr err
           /\ (IsRepoNotExist err = true \/ err = ErrRevisionNotFound)
           /\ msg b = Error_ext err).
Proof.
  rewrite fetchTar_fst. intros Hres.
  destruct (Go.HasPrefix commit "-") eqn:Hguard.
  - left. rewrite fetchTar_body_rejected in Hres by exact Hguard.
    injection Hres as <-. now split.
  - right. split; [reflexivity |].
    destruct (fetchTar_body_cases repo commit w Hguard) as [_ Hcase].
    destruct (respond (issued w) (archiveCmd repo commit)) as [r | err];
      rewrite Hcase in Hres; [discriminate |].
    exists err. split; [reflexivity |].
    destruct (IsRepoNotExist err) eqn:Hrepo.
    + cbn in Hres. injection Hres as <-. split; [now left | reflexivity].
    + destruct (bool_decide (err = ErrRevisionNotFound)) eqn:Hrev;
        cbn in Hres; [| discriminate].
      injection Hres as <-. apply bool_decide_eq_true in Hrev.
      split; [now right | reflexivity].
Qed.

(** X5. Whatever error the remote service answers with, the error [fetchTar]
    returns has the same message: turning an error into a [badRequestError]
    keeps its text. *)
Theorem fetchTar_keeps_error_message repo commit w err :
  Go.HasPrefix commit "-" = false ->
  respond (issued w) (archiveCmd repo commit) = inr err ->
  exists e,
    (fetchTar repo commit w).1 = inr e
    /\ Error E Error_ext e = Error_ext err.
Proof.
  intros Hguard Hresp.
  destruct (fetchTar_body_cases repo commit w Hguard) as [_ Hcase].
  rewrite Hresp in Hcase. rewrite fetchTar_fst, Hcase.
  eexists. split; [reflexivity |].
  destruct (IsRepoNotExist err || bool_decide (err = ErrRevisionNotFound)); reflexivity.
Qed.

(** One more call, then the rest. *)
Lemma fetchEach_cons repo commit rest w :
  fetchEach ((repo, commit) :: rest) w
  = ((fetchTar repo commit w).1 :: (fetchEach rest (fetchTar repo commit w).2).1,
     (fetchEach rest (fetchTar repo commit w).2).2).
Proof.
  cbn [Fetcher.fetchEach].
  destruct (fetchTar repo commit w) as [res w']. cbn [fst snd].
  destruct (fetchEach rest w') as [ress w'']. reflexivity.
Qed.

(** Commands, results and spans after a sequence of calls. *)
Lemma fetchEach_effects reqs w :
  issued (fetchEach reqs w).2
  = issued w ++ map (fun rc => archiveCmd rc.1 rc.2)
                    (filter (fun rc => passesGuard rc = true) reqs)
  /\ length (fetchEach reqs w).1 = length reqs
  /\ length (spans (fetchEach reqs w).2) = (length (spans w) + length reqs)%nat.
Proof.
  revert w. induction reqs as [| [repo commit] rest IH]; intros w.
  - cbn. rewrite app_nil_r. repeat split. lia.
  - rewrite fetchEach_cons. cbn [fst snd length].
    destruct (IH (fetchTar repo commit w).2) as (Hiss & Hlen & Hsp).
    rewrite Hiss, Hlen, Hsp, fetchTar_issued_after, fetchTar_span_count.
    split; [| split; [reflexivity | lia]].
    destruct (Go.HasPrefix commit "-") eqn:Hguard.
    + rewrite filter_cons_False
        by (unfold passesGuard; cbn [snd]; rewrite Hguard; discriminate).
      now rewrite app_nil_r.
    + rewrite filter_cons_True
        by (unfold passesGuard; cbn [snd]; now rewrite Hguard).
      cbn [map fst snd]. rewrite <- app_assoc. reflexivity.
Qed.

(** X6. Calls of [fetchTar] compose without memory: a sequence of calls gives
    one result and one span per call and sends one archive command for each
    request whose commit passes the guard, in the order of the calls. *)
Theorem fetchEach_one_command_per_admitted_request reqs w :
  issued (fetchEach reqs w).2
  = issued w ++ map (fun rc => archiveCmd rc.1 rc.2)
                    (filter (fun rc => passesGuard rc = true) reqs)
  /\ length (fetchEach reqs w).1 = length reqs
  /\ length (spans (fetchEach reqs w).2) = (length (spans w) + length reqs)%nat.
Proof.
  destruct (fetchEach_effects reqs w) as (Hiss & Hlen & Hsp).
  split; [exact Hiss |]. split; [exact Hlen | exact Hsp].
Qed.

(** X7. No sequence of calls of [fetchTar] ever sends the remote service a
    command whose revision argument begins with '-': every command sent is
    git archive --format=tar followed by a revision that cannot be read as an
    option. *)
Theorem fetchEach_never_sends_flag_like_revision reqs :
  Forall (fun cmd => Args cmd = ["git"; "archive"; "--format=tar"; EnsureRevision cmd]
                     /\ Go.HasPrefix (EnsureRevision cmd) "-" = false)
         (issued (fetchEach reqs (mkWorld [] [])).2).
Proof.
  destruct (fetchEach_effects reqs (mkWorld [] [])) as (-> & _ & _).
  cbn [issued app]. apply Forall_map, Forall_forall.
  intros [repo commit] Hin. apply list_elem_of_filter in Hin as [Hpass _].
  cbn. split; [reflexivity |].
  unfold passesGuard in Hpass. cbn in Hpass. now apply negb_true_iff in Hpass.
Qed.

End WithTransport.

(** The sample service hands out the archive of "r" at "c1". *)
Lemma fetchTar_success_returns_stream_witness :
  (Sample.fetchTar "r" "c1" Sample.start).1 = inl "tar of r at c1"
  /\ issued (Sample.fetchTar "r" "c1" Sample.start).2
     = [] ++ [archiveCmd "r" "c1"].
Proof.
  apply (fetchTar_success_returns_stream Sample.Error_ext Sample.IsRepoNotExist
           Sample.RevisionNotFound string Sample.respond "r" "c1" Sample.start
           "tar of r at c1").
  - reflexivity.
  - reflexivity.
Defined.

(** The sample service cannot be reached: the connection error comes back. *)
Lemma fetchTar_never_returns_raw_not_found_witness :
  Sample.respond [] (archiveCmd "down" "c1") = inr Sample.ConnectionRefused
  /\ Sample.IsRepoNotExist Sample.ConnectionRefused = false
  /\ Sample.ConnectionRefused <> Sample.RevisionNotFound.
Proof.
  apply (fetchTar_never_returns_raw_not_found Sample.Error_ext Sample.IsRepoNotExist
           Sample.RevisionNotFound string Sample.respond "down" "c1" Sample.start
           Sample.ConnectionRefused).
  reflexivity.
Defined.

(** The sample service does not know repository "q". *)
Lemma fetchTar_bad_request_only_for_client_causes_witness :
  (Go.HasPrefix "c1" "-" = true
   /\ msg (mkBadRequestError "repository does not exist")
      = "invalid git revision spec (begins with '-')")
  \/ (Go.HasPrefix "c1" "-" = false
      /\ exists err,
           Sample.respond (issued Sample.start) (archiveCmd "q" "c1") = inr err
           /\ (Sample.IsRepoNotExist err = true \/ err = Sample.RevisionNotFound)
           /\ msg (mkBadRequestError "repository does not exist")
              = Sample.Error_ext err).
Proof.
  apply (fetchTar_bad_request_only_for_client_causes Sample.Error_ext
           Sample.IsRepoNotExist Sample.RevisionNotFound string Sample.respond
           "q" "c1" Sample.start (mkBadRequestError "repository does not exist")).
  reflexivity.
Defined.

(** The same request, for the message. *)
Lemma fetchTar_keeps_error_message_witness :
  exists e,
    (Sample.fetchTar "q" "c1" Sample.start).1 = inr e
    /\ Error Sample.vcsError Sample.Error_ext e = "repository does not exist".
Proof.
  apply (fetchTar_keeps_error_message Sample.Error_ext Sample.IsRepoNotExist
           Sample.RevisionNotFound string Sample.respond "q" "c1" Sample.start
           Sample.RepoNotExist).
  - reflexivity.
  - reflexivity.
Defined.

End FetcherPaths.

(** ** Signed 64-bit arithmetic: wrap-around *)

Module GoWrap.
Import Go.

Lemma wrap64_range z : in_int64 (wrap64 z).
Proof.
  unfold in_int64, min_int64, max_int64, wrap64.
  pose proof (Z.mod_pos_bound (z + 2 ^ 63) (2 ^ 64) ltac:(lia)). lia.
Qed.

Lemma wrap64_congruent z : (wrap64 z - z) mod 2 ^ 64 = 0.
Proof.
  unfold wrap64. rewrite (Z.mod_eq (z + 2 ^ 63) (2 ^ 64)) by lia.
  replace (z + 2 ^ 63 - 2 ^ 64 * ((z + 2 ^ 63) / 2 ^ 64) - 2 ^ 63 - z)
    with ((- ((z + 2 ^ 63) / 2 ^ 64)) * 2 ^ 64) by lia.
  apply Z.mod_mul. lia.
Qed.

(** Wrapping depends on the residue modulo 2^64 only. *)
Lemma wrap64_mod_eq a b : (a - b) mod 2 ^ 64 = 0 -> wrap64 a = wrap64 b.
Proof.
  intros H. unfold wrap64. f_equal.
  apply Z.mod_divide in H; [| lia]. destruct H as [q Hq].
  replace (a + 2 ^ 63) with (b + 2 ^ 63 + q * 2 ^ 64) by lia.
  apply Z.mod_add. lia.
Qed.

(** Wrapping after each of two multiplications is wrapping once. *)
Lemma mul64_mul64 a b c : mul64 (mul64 a b) c = wrap64 (a * (b * c)).
Proof.
  unfold mul64. apply wrap64_mod_eq.
  pose proof (wrap64_congruent (a * b)) as H.
  apply Z.mod_divide in H; [| lia]. destruct H as [q Hq].
  replace (wrap64 (a * b) * c - a * (b * c)) with ((q * c) * 2 ^ 64) by lia.
  apply Z.mod_mul. lia.
Qed.

End GoWrap.

(** ** Process bootstrap: the whole of [main] *)

Module BootstrapPaths.
Import Bootstrap.

Section WithLibraries.

Variable filepath_Join : string -> string -> string.
Variable env : Environment.
Variable served : ServeError.

Local Abbreviation process := (Bootstrap.process filepath_Join env served).

(** The events before the cache size is parsed. *)
Local Abbreviation preamble :=
  ([EnvLock; EnvHandleHelpFlag; LogSetFlags 0; TracerInit "searcher"]
   ++ (if lvlErr env then [] else [SetLogHandler (lvl env)])
   ++ (if String.eqb (profBindAddr env) "" then []
       else [GoDebugserverStart (profBindAddr env)])).

(** The service [main] serves, from a parsed size. *)
Local Abbreviation serviceFor i :=
  (let service := newService filepath_Join env (Go.mul64 (Go.mul64 i 1000) 1000) in
   if lvl env >=? LvlInfo then withRequestLog service else service).

(** The whole trace of a process whose setting parses. *)
Lemma process_started i :
  Strconv.ParseInt10_64 (cacheSizeMB env) = inl i ->
  process
  = (preamble
     ++ [StoreStart (ServiceStore (serviceFor i)); GoShutdownOnSIGINT ":3181";
         LogInfo "searcher: listening" ":3181"; ListenAndServe ":3181" (serviceFor i)]
     ++ match served with
        | ErrServerClosed => []
        | ServeFailed msg => [LogFatal msg]
        end,
     match served with
     | ErrServerClosed => ExitReturn
     | ServeFailed _ => ExitFatal
     end).
Proof.
  intros Hparse. run_main. rewrite Hparse.
  destruct (lvlErr env), (String.eqb (profBindAddr env) ""),
           (lvl env >=? LvlInfo), served; reflexivity.
Qed.

(** The whole trace of a process whose setting does not parse. *)
Lemma process_rejected err :
  Strconv.ParseInt10_64 (cacheSizeMB env) = inr err ->
  process
  = (preamble ++ [LogFatalf "invalid int %q for SEARCHER_CACHE_SIZE_MB: %s"
                            (cacheSizeMB env) err],
     ExitFatal).
Proof.
  intros Hparse. run_main. rewrite Hparse.
  destruct (lvlErr env), (String.eqb (profBindAddr env) ""); reflexivity.
Qed.

(** A trace of quiet events starts no store. *)
Lemma quiet_starts_no_store (tr : list Event) :
  Forall quiet tr -> startedStore tr = None.
Proof.
  intros Hall. unfold startedStore.
  replace (filter _ tr) with (@nil Event); [reflexivity |].
  symmetry. induction Hall as [| e l [He _] _ IH]; [reflexivity |].
  rewrite filter_cons_False by (rewrite He; discriminate). exact IH.
Qed.

Lemma preamble_quiet : Forall quiet preamble.
Proof.
  destruct (lvlErr env), (String.eqb (profBindAddr env) ""); repeat constructor.
Qed.

(** X8. For every setting that parses, in range or not, the store is
    started with the bound i * 1000 * 1000 computed in signed 64-bit
    arithmetic: the value in the int64 range that is congruent to
    i * 1,000,000 modulo 2^64. *)
Theorem cache_bound_is_product_modulo_2_64 i :
  Strconv.ParseInt10_64 (cacheSizeMB env) = inl i ->
  exists st,
    startedStore process.1 = Some st
    /\ MaxCacheSizeBytes st = Go.wrap64 (i * 1000000)
    /\ Go.in_int64 (MaxCacheSizeBytes st)
    /\ (MaxCacheSizeBytes st - i * 1000000) mod 2 ^ 64 = 0.
Proof.
  intros Hparse. eexists. split; [apply BootstrapSpec.process_parse_ok, Hparse |].
  cbn [MaxCacheSizeBytes ServiceStore newService].
  rewrite GoWrap.mul64_mul64. change (1000 * 1000) with 1000000.
  split; [reflexivity |].
  split; [apply GoWrap.wrap64_range | apply GoWrap.wrap64_congruent].
Qed.

(** X9. The process starts its store exactly when the setting parses, and
    it ends by returning from [main], rather than in a fatal log call,
    exactly when the setting parses and [ListenAndServe] returns
    [http.ErrServerClosed]; any other error of [ListenAndServe] is fatal. *)
Theorem process_exit_status :
  (is_Some (startedStore process.1)
   <-> exists i, Strconv.ParseInt10_64 (cacheSizeMB env) = inl i)
  /\ (process.2 = ExitReturn
      <-> (exists i, Strconv.ParseInt10_64 (cacheSizeMB env) = inl i)
          /\ served = ErrServerClosed).
Proof.
  destruct (Strconv.ParseInt10_64 (cacheSizeMB env)) as [i | err] eqn:Hparse.
  - rewrite (BootstrapSpec.process_parse_ok _ _ _ i Hparse).
    rewrite (process_started i Hparse). cbn [snd]. split.
    + split; [intros _; now exists i | intros _; eexists; reflexivity].
    + destruct served; split.
      * intros _. split; [now exists i | reflexivity].
      * reflexivity.
      * discriminate.
      * intros [_ ?]. discriminate.
  - rewrite (process_rejected err Hparse). cbn [fst snd].
    rewrite quiet_starts_no_store
      by (apply Forall_app; split; [apply preamble_quiet | repeat constructor]).
    split.
    + split; [intros [? ?]; discriminate | intros [? ?]; discriminate].
    + split; [discriminate | intros [[? ?] _]; discriminate].
Qed.

(** X10. When the setting parses, the events of start-up come in this
    order: first events that neither start the store nor serve, then the
    store is started, then the goroutine of [shutdownOnSIGINT] is launched,
    then the listening message is logged, then the server listens on :3181
    with a service built on the very store that was started, whose path is
    the cache directory joined with searcher-archives. *)
Theorem startup_order i :
  Strconv.ParseInt10_64 (cacheSizeMB env) = inl i ->
  exists pre st svc tail,
    process.1 = pre ++ [StoreStart st; GoShutdownOnSIGINT ":3181";
                        LogInfo "searcher: listening" ":3181";
                        ListenAndServe ":3181" svc] ++ tail
    /\ Forall quiet pre
    /\ ServiceStore svc = st
    /\ Path st = filepath_Join (cacheDir env) "searcher-archives"
    /\ tail = match served with
              | ErrServerClosed => []
              | ServeFailed msg => [LogFatal msg]
              end.
Proof.
  intros Hparse. rewrite (process_started i Hparse). cbn [fst].
  exists preamble, (ServiceStore (serviceFor i)), (serviceFor i).
  eexists. split; [reflexivity |]. split; [apply preamble_quiet |].
  split; [reflexivity |]. split; [| reflexivity].
  destruct (lvl env >=? LvlInfo); reflexivity.
Qed.

(** X11. The log filter is installed exactly when the log level string was
    understood; and when the setting parses, requests are logged exactly
    when the level value is at least info, whether or not the level string
    was understood. *)
Theorem logging_follows_level i :
  Strconv.ParseInt10_64 (cacheSizeMB env) = inl i ->
  (In (SetLogHandler (lvl env)) process.1 <-> lvlErr env = false)
  /\ exists svc,
       In (ListenAndServe ":3181" svc) process.1
       /\ RequestLog svc = (lvl env >=? LvlInfo).
Proof.
  intros Hparse. rewrite (process_started i Hparse). cbn [fst]. split.
  - rewrite !in_app_iff.
    destruct (lvlErr env), (String.eqb (profBindAddr env) ""), served; cbn;
      split; intros H; try reflexivity; try discriminate;
      try (repeat (destruct H as [H | H]; try discriminate H; try contradiction));
      auto 10.
  - exists (serviceFor i). split.
    + rewrite !in_app_iff. right. left. cbn. auto.
    + destruct (lvl env >=? LvlInfo); reflexivity.
Qed.

(** X12. The profiling server is started exactly when SRC_PROF_HTTP is not
    empty, on that address, and before the cache size is looked at: it is
    started also by a process that then ends on an invalid
    SEARCHER_CACHE_SIZE_MB. *)
Theorem debugserver_started_iff_address addr :
  In (GoDebugserverStart addr) process.1
  <-> addr = profBindAddr env /\ profBindAddr env <> "".
Proof.
  assert (Hpre : In (GoDebugserverStart addr) preamble
                 <-> addr = profBindAddr env /\ profBindAddr env <> "").
  { rewrite !in_app_iff.
    destruct (String.eqb_spec (profBindAddr env) "") as [Heq | Hne];
      destruct (lvlErr env); cbn; split;
      try (intros [_ ?]; contradiction);
      try (intros [-> _]; auto 10);
      intros H;
      repeat (destruct H as [H | H]; try discriminate H; try contradiction);
      try (injection H as <-; now split). }
  destruct (Strconv.ParseInt10_64 (cacheSizeMB env)) as [i | err] eqn:Hparse.
  - rewrite (process_started i Hparse). cbn [fst].
    rewrite in_app_iff, Hpre. split; [| auto].
    intros [H | H]; [exact H |].
    rewrite in_app_iff in H. destruct served; cbn in H;
      repeat (destruct H as [H | H]; try discriminate H; try contradiction).
  - rewrite (process_rejected err Hparse). cbn [fst].
    rewrite in_app_iff, Hpre. split; [| auto].
    intros [H | H]; [exact H |].
    cbn in H. destruct H as [H | H]; [discriminate H | contradiction].
Qed.

End WithLibraries.

(** SEARCHER_CACHE_SIZE_MB=9223372036855, beyond the exact range. *)
Lemma cache_bound_is_product_modulo_2_64_witness :
  exists st,
    startedStore (sampleProcess "9223372036855").1 = Some st
    /\ MaxCacheSizeBytes st = Go.wrap64 (9223372036855 * 1000000)
    /\ Go.in_int64 (MaxCacheSizeBytes st)
    /\ (MaxCacheSizeBytes st - 9223372036855 * 1000000) mod 2 ^ 64 = 0.
Proof.
  apply (cache_bound_is_product_modulo_2_64 sampleJoin (sampleEnv "9223372036855")
           ErrServerClosed 9223372036855).
  reflexivity.
Defined.

(** [main] with SEARCHER_CACHE_SIZE_MB=0 and a clean shutdown. *)
Lemma startup_order_witness :
  exists pre st svc tail,
    (sampleProcess "0").1
    = pre ++ [StoreStart st; GoShutdownOnSIGINT ":3181";
              LogInfo "searcher: listening" ":3181";
              ListenAndServe ":3181" svc] ++ tail
    /\ Forall quiet pre
    /\ ServiceStore svc = st
    /\ Path st = sampleJoin "/tmp" "searcher-archives"
    /\ tail = [].
Proof.
  apply (startup_order sampleJoin (sampleEnv "0") ErrServerClosed 0).
  reflexivity.
Defined.

(** [main] at log level info. *)
Lemma logging_follows_level_witness :
  (In (SetLogHandler LvlInfo) (sampleProcess "0").1 <-> false = false)
  /\ exists svc,
       In (ListenAndServe ":3181" svc) (sampleProcess "0").1
       /\ RequestLog svc = (LvlInfo >=? LvlInfo).
Proof.
  apply (logging_follows_level sampleJoin (sampleEnv "0") ErrServerClosed 0).
  reflexivity.
Defined.

End BootstrapPaths.

(** ** Process lifecycle: after the interrupt *)

Module LifecyclePaths.
Import Lifecycle.

(** A process that has ended takes no step. *)
Lemma step_needs_running a p p' : step a p = Some p' -> exited p = None.
Proof. unfold step. destruct (exited p); [discriminate | reflexivity]. Qed.

Lemma run_of_exited acts p p' e :
  exited p = Some e -> run acts p = Some p' -> acts = [] /\ p' = p.
Proof.
  intros Hex. destruct acts as [| a rest]; cbn.
  - intros [= <-]. now split.
  - unfold step. rewrite Hex. discriminate.
Qed.

(** The interrupt closes the listener and fixes the deadline. *)
Lemma interrupt_effect p p' :
  step Interrupt p = Some p' ->
  listening p' = false /\ sigG p' = InShutdown (now p + gracePeriod)
  /\ active p' = active p /\ now p' = now p /\ exited p' = None.
Proof.
  unfold step. destruct (exited p); [discriminate |].
  destruct (sigG p); try discriminate.
  intros [= <-]. repeat split.
Qed.

(** Once closed, the listener stays closed. *)
Lemma step_keeps_closed a p p' :
  listening p = false -> step a p = Some p' -> listening p' = false.
Proof.
  intros Hclosed. unfold step. destruct (exited p); [discriminate |].
  destruct a as [need | d | | |].
  - rewrite Hclosed. discriminate.
  - destruct (0 <? d); [| discriminate]. intros [= <-]. exact Hclosed.
  - destruct (sigG p); try discriminate. intros [= <-]. reflexivity.
  - destruct (mainG p), (sigG p); try discriminate; intros [= <-]; reflexivity.
  - destruct (sigG p) as [| deadline |]; try discriminate.
    destruct (active p); [intros [= <-]; reflexivity |].
    destruct (deadline <=? now p); [| discriminate]. intros [= <-]. reflexivity.
Qed.

(** X13. After the interrupt the server accepts no request any more: no
    continuation of the run, however scheduled, contains an accepted
    request. *)
Theorem no_request_accepted_after_interrupt p0 p1 post need :
  step Interrupt p0 = Some p1 ->
  In (Accept need) post ->
  run post p1 = None.
Proof.
  intros Hint Hin.
  apply interrupt_effect in Hint as (Hclosed & _).
  clear p0. revert p1 Hclosed.
  induction post as [| a rest IH]; intros p Hclosed; [contradiction |].
  cbn [run]. destruct (step a p) as [p' |] eqn:Hstep; [| reflexivity].
  destruct Hin as [-> | Hin].
  - unfold step in Hstep. destruct (exited p); [discriminate |].
    rewrite Hclosed in Hstep. discriminate.
  - apply IH; [exact Hin |]. now apply (step_keeps_closed a p).
Qed.




(** With nothing in flight and the listener closed, nothing gets in flight. *)
Lemma step_keeps_idle a p p' :
  listening p = false -> active p = [] -> step a p = Some p' ->
  active p' = [] /\ exited p' <> Some Bootstrap.ExitFatal.
Proof.
  intros Hclosed Hidle. unfold step. destruct (exited p); [discriminate |].
  destruct a as [need | d | | |].
  - rewrite Hclosed. discriminate.
  - destruct (0 <? d); [| discriminate]. intros [= <-]. cbn.
    rewrite Hidle. split; [reflexivity | discriminate].
  - destruct (sigG p); try discriminate. intros [= <-]. cbn.
    split; [exact Hidle | discriminate].
  - destruct (mainG p), (sigG p); try discriminate; intros [= <-]; cbn;
      (split; [exact Hidle | discriminate]).
  - destruct (sigG p); try discriminate. rewrite Hidle.
    intros [= <-]. cbn. split; [reflexivity | discriminate].
Qed.

(** X15. When no request is in flight at the interrupt, the process never
    ends in [log.Fatal]: whatever the schedule, [Shutdown] does not report a
    failure. *)
Theorem idle_shutdown_never_fatal p0 p1 post p :
  step Interrupt p0 = Some p1 ->
  active p0 = [] ->
  run post p1 = Some p ->
  exited p <> Some Bootstrap.ExitFatal.
Proof.
  intros Hint Hidle.
  apply interrupt_effect in Hint as (Hclosed & _ & Hact & _ & Hrunning).
  rewrite <- Hact in Hidle. clear p0 Hact.
  revert p1 Hclosed Hidle Hrunning.
  induction post as [| a rest IH]; intros p1 Hclosed Hidle Hrunning; cbn [run].
  - intros [= <-]. congruence.
  - destruct (step a p1) as [p2 |] eqn:Hstep; [| discriminate].
    destruct (step_keeps_idle a p1 p2 Hclosed Hidle Hstep) as [Hidle2 Hnofatal].
    pose proof (step_keeps_closed a p1 p2 Hclosed Hstep) as Hclosed2.
    intros Hrest.
    destruct (exited p2) as [e |] eqn:Hex2.
    + destruct (run_of_exited rest p2 p e Hex2 Hrest) as [_ ->]. congruence.
    + now apply (IH p2).
Qed.



(** One request that needs a second; the interrupt comes, three seconds
    later the deadline is far and yet nothing more is accepted. *)
Lemma no_request_accepted_after_interrupt_witness :
  run [Elapse (3 * Second); Accept Second]
      (mkProcess 0 false [Second] Serving (InShutdown (0 + gracePeriod)) None [])
  = None.
Proof.
  apply (no_request_accepted_after_interrupt (serving [Second])
           (mkProcess 0 false [Second] Serving (InShutdown (0 + gracePeriod)) None [])
           [Elapse (3 * Second); Accept Second] Second).
  - reflexivity.
  - right. left. reflexivity.
Defined.


(** An idle server is interrupted; the two goroutines run in either order. *)
Lemma idle_shutdown_never_fatal_witness :
  exited (mkProcess 0 false [] MainDone SignalDone (Some Bootstrap.ExitReturn) [])
  <> Some Bootstrap.ExitFatal.
Proof.
  apply (idle_shutdown_never_fatal (serving [])
           (mkProcess 0 false [] Serving (InShutdown (0 + gracePeriod)) None [])
           [RunShutdown; RunMain]).
  - reflexivity.
  - reflexivity.
  - reflexivity.
Defined.


End LifecyclePaths.
